(** * Notes API: token checks, role gate, rate limiter and listing cache

    A shallow embedding of the request handlers of the notes service
    (data.py, main.py, notes.py, rate_limiter.py, redis_cache.py) and the
    properties of its authentication, authorisation, rate limiting and
    listing cache.

    Handlers are written once, as programs over the commands they send to
    their collaborators (clock, Redis, record store).  One interpreter runs a
    handler to completion on a world; a second one interleaves two handlers
    command by command, which is what two coroutines awaiting the same Redis
    connection can do. *)

From Stdlib Require Import ZArith Lia List Ascii String.
From stdpp Require Import base tactics option list gmap strings pretty.

Local Open Scope Z_scope.

(** ** Python values the handlers format and parse *)

(** [str(n)] for an [int] is stdpp's [pretty]: a minus sign for negatives,
    decimal digits, ["0"] for zero. *)
Definition py_str (n : Z) : string := pretty n.
Arguments py_str : simpl never.

(** [f"{search}"] where [search: str = None]. *)
Definition fmt_search (search : option string) : string :=
  match search with
  | None => "None"
  | Some s => s
  end.

Definition digit_val (c : ascii) : option N :=
  (if Ascii.eqb c "0" then Some 0
   else if Ascii.eqb c "1" then Some 1
   else if Ascii.eqb c "2" then Some 2
   else if Ascii.eqb c "3" then Some 3
   else if Ascii.eqb c "4" then Some 4
   else if Ascii.eqb c "5" then Some 5
   else if Ascii.eqb c "6" then Some 6
   else if Ascii.eqb c "7" then Some 7
   else if Ascii.eqb c "8" then Some 8
   else if Ascii.eqb c "9" then Some 9
   else None)%N.

Fixpoint digits_go (acc : N) (s : string) : option N :=
  match s with
  | EmptyString => Some acc
  | String c s' =>
      match digit_val c with
      | Some d => digits_go (10 * acc + d)%N s'
      | None => None
      end
  end.

(** [int(text)] for the texts the limiter stores: an optional minus sign
    and at least one decimal digit.  [None] stands for [ValueError].
    Python's [int] also accepts a plus sign, surrounding blanks and
    underscores between digits; no handler writes such a text, and here
    they read as [ValueError]. *)
Definition py_int (s : string) : option Z :=
  match s with
  | EmptyString => None
  | String c s' =>
      if Ascii.eqb c "-" then
        match s' with
        | EmptyString => None
        | _ => (fun n => - Z.of_N n) <$> digits_go 0 s'
        end
      else Z.of_N <$> digits_go 0 s
  end.

(** ** Exceptions and responses *)

Inductive exn :=
  | HTTPException (status_code : Z) (detail : string)
                  (headers : list (string * string))
  | JWTError (why : string)
  | RedisError
  | ValueError
  | TypeError
  | OverflowError
  | RecursionError
  | ZeroDivisionError.

#[global] Instance exn_eq_dec : EqDecision exn.
Proof. solve_decision. Defined.

Record Response := { status_code : Z; body : string }.

#[global] Instance Response_eq_dec : EqDecision Response.
Proof. solve_decision. Defined.

(** ** schemas.py *)

Record User := {
  user_id : Z;
  username : string;
  password : string;
  role : string
}.

Record Note := {
  note_id : Z;
  title : string;
  content : string;
  owner_id : Z
}.

Record UserCreate := { uc_username : string; uc_password : string }.
Record NoteCreate := { nc_title : string; nc_content : string }.
Record NoteUpdate := {
  nu_title : option string;
  nu_content : option string
}.

#[global] Instance User_eq_dec : EqDecision User.
Proof. solve_decision. Defined.
#[global] Instance Note_eq_dec : EqDecision Note.
Proof. solve_decision. Defined.

(** ** The Redis store *)

(** A stored text.  [json.dumps] output is kept as the rows it encodes,
    [json.loads] reads them back; every other text is kept as it is. *)
Inductive redis_val :=
  | VText (s : string)
  | VJson (rows : list Note).

#[global] Instance redis_val_eq_dec : EqDecision redis_val.
Proof. solve_decision. Defined.

(** Python truthiness of a [get] result ([if cached:]): [None] and the empty
    text are false; a JSON text is never empty. *)
Definition truthy (v : option redis_val) : bool :=
  match v with
  | None => false
  | Some (VText EmptyString) => false
  | Some _ => true
  end.

(** A command as the server receives it. *)
Inductive redis_cmd :=
  | GET (key : string)
  | SET (key : string) (v : redis_val) (ex : Z)
  | DEL (key : string).

#[global] Instance redis_cmd_eq_dec : EqDecision redis_cmd.
Proof. solve_decision. Defined.

(** ** The world a handler runs in *)

Record world := {
  clock : Z;                               (* milliseconds since the epoch *)
  redis : gmap string (redis_val * Z);     (* text and expiry deadline (ms) *)
  outages : list bool;                     (* fate of the coming Redis calls *)
  wire : list redis_cmd;                   (* commands sent so far, oldest first *)
  notes : list Note;                       (* table note *)
  users : list User                        (* table user *)
}.

Definition at_time (t : Z) (w : world) : world :=
  {| clock := t; redis := redis w; outages := outages w; wire := wire w;
     notes := notes w; users := users w |}.

Definition with_redis (r : gmap string (redis_val * Z)) (w : world) : world :=
  {| clock := clock w; redis := r; outages := outages w; wire := wire w;
     notes := notes w; users := users w |}.

Definition with_outages (o : list bool) (w : world) : world :=
  {| clock := clock w; redis := redis w; outages := o; wire := wire w;
     notes := notes w; users := users w |}.

Definition sent (c : redis_cmd) (w : world) : world :=
  {| clock := clock w; redis := redis w; outages := outages w;
     wire := wire w ++ [c]; notes := notes w; users := users w |}.

Definition with_notes (ns : list Note) (w : world) : world :=
  {| clock := clock w; redis := redis w; outages := outages w; wire := wire w;
     notes := ns; users := users w |}.

Definition with_users (us : list User) (w : world) : world :=
  {| clock := clock w; redis := redis w; outages := outages w; wire := wire w;
     notes := notes w; users := us |}.

(** A key is visible until the clock has passed its deadline. *)
Definition live (now : Z) (e : redis_val * Z) : option redis_val :=
  if now <=? e.2 then Some e.1 else None.

Definition store_get (key : string) (w : world) : option redis_val :=
  redis w !! key ≫= live (clock w).

(** [SET key v EX ex]: the deadline is [ex] seconds from now.  (The
    handlers pass 60 and the limiter's window; a non-positive [ex], which
    the server refuses, is not told apart.) *)
Definition store_set (key : string) (v : redis_val) (ex : Z) (w : world) : world :=
  with_redis (<[key := (v, clock w + 1000 * ex)]> (redis w)) w.

(** [DEL key] removes the key of exactly that name. *)
Definition store_del (key : string) (w : world) : world :=
  with_redis (delete key (redis w)) w.

(** ** Handlers as programs over their collaborators' commands *)

(** What a handler can ask of the outside: the clock, the Redis connection of
    redis_cache.py, the SQLModel session of [get_db], and passlib. *)
Inductive cmd : Type -> Type :=
  | time_now : cmd Z
  | redis_get (key : string) : cmd (option redis_val)
  | redis_set (key : string) (v : redis_val) (ex : Z) : cmd unit
  | redis_delete (key : string) : cmd unit
  | db_get_note (id : Z) : cmd (option Note)
  | db_add_note (t c : string) (owner : Z) : cmd Note
  | db_commit_note (n : Note) : cmd Note
  | db_delete_note (n : Note) : cmd unit
  | db_select_notes (owner : Z) (like : option string) (skip limit : Z)
      : cmd (list Note)
  | db_get_user (name : string) : cmd (option User)
  | db_add_user (name pw r : string) : cmd User
  | pwd_context_hash (pw : string) : cmd string.

Inductive prog (A : Type) : Type :=
  | Ret (a : A)
  | Raise (e : exn)
  | Vis {X : Type} (c : cmd X) (k : X -> prog A).

Arguments Ret {A} a.
Arguments Raise {A} e.
Arguments Vis {A X} c k.

Fixpoint bind {A B : Type} (p : prog A) (f : A -> prog B) : prog B :=
  match p with
  | Ret a => f a
  | Raise e => Raise e
  | Vis c k => Vis c (fun x => bind (k x) f)
  end.

Definition call {X : Type} (c : cmd X) : prog X := Vis c Ret.

Notation "x <- p ;; q" := (bind p (fun x => q))
  (at level 100, p at next level, right associativity).
Notation "p ;;; q" := (bind p (fun _ => q))
  (at level 100, right associativity).

(** [try: p except JWTError: h] *)
Fixpoint except_JWTError {A : Type} (p : prog A) (h : prog A) : prog A :=
  match p with
  | Ret a => Ret a
  | Raise (JWTError _) => h
  | Raise e => Raise e
  | Vis c k => Vis c (fun x => except_JWTError (k x) h)
  end.

(** ** python-jose, as far as data.py uses it *)

(** A float as [json.loads] reads one: a finite double [m * 2^e], an
    infinity, or not a number. *)
Inductive pyfloat :=
  | Finite (m e : Z)
  | Infinity (negative : bool)
  | NaN.

#[global] Instance pyfloat_eq_dec : EqDecision pyfloat.
Proof. solve_decision. Defined.

(** Values of a claims dictionary: the scalars JSON carries, and
    [datetime], which [create_access_token] puts under "exp".  (A claim
    that holds a list or a dictionary is not modelled.) *)
Inductive pyval :=
  | PNone
  | PBool (b : bool)
  | PInt (n : Z)
  | PFloat (x : pyfloat)
  | PStr (s : string)
  | PDatetime (ms : Z).

#[global] Instance pyval_eq_dec : EqDecision pyval.
Proof. solve_decision. Defined.

(** [int(v)], with the error it raises for what it does not convert: a
    float is cut towards zero, a text is parsed ([py_int]). *)
Definition int_ (v : pyval) : exn + Z :=
  match v with
  | PBool b => inr (if b then 1 else 0)
  | PInt n => inr n
  | PFloat (Finite m e) =>
      inr (if 0 <=? e then m * 2 ^ e else Z.quot m (2 ^ (- e)))
  | PFloat (Infinity _) => inl OverflowError
  | PFloat NaN => inl ValueError
  | PStr s =>
      match py_int s with
      | Some n => inr n
      | None => inl ValueError
      end
  | PNone | PDatetime _ => inl TypeError
  end.

(** What [json.dumps] serialises: everything but a [datetime]. *)
Definition json_able (v : pyval) : bool :=
  match v with
  | PDatetime _ => false
  | _ => true
  end.

Module jwt.

(** An HS256 tag, read symbolically: it is determined by the key and by
    the header and claims it was computed over, and tags computed under
    different keys or over different inputs differ. *)
Inductive tag :=
  | Hmac (key : string) (alg : string) (claims : gmap string pyval)
  | Noise (bits : string).

#[global] Instance tag_eq_dec : EqDecision tag.
Proof. solve_decision. Defined.

(** A bearer string as the decoder sees it: three segments whose header
    is a JSON object and whose payload is a JSON object of scalar claims;
    a string [jws._load] refuses with a [JWSError] (too few segments, bad
    padding, a header that is not JSON or not an object); or a string
    whose header is JSON nested deeper than the interpreter's recursion
    limit, on which [json.loads] raises [RecursionError]. *)
Inductive token :=
  | Jws (alg : string) (claims : gmap string pyval) (sig : tag)
  | Garbled (raw : string)
  | Nested (raw : string).

(** [timegm(d.utctimetuple())]: whole seconds, the fraction dropped. *)
Definition timegm (ms : Z) : Z := ms / 1000.

Definition as_timestamp (v : pyval) : pyval :=
  match v with
  | PDatetime ms => PInt (timegm ms)
  | _ => v
  end.

(** [jwt.encode(claims, key, algorithm)]: datetimes under exp, iat and nbf
    become integer timestamps, then the claims are serialised with
    [json.dumps], which raises [TypeError] on any other [datetime], and
    header and claims are signed. *)
Definition encode (claims : gmap string pyval) (key alg : string)
  : prog token :=
  let claims := alter as_timestamp "exp" claims in
  let claims := alter as_timestamp "iat" claims in
  let claims := alter as_timestamp "nbf" claims in
  if bool_decide (map_Forall (fun _ v => json_able v = true) claims)
  then Ret (Jws alg claims (Hmac key alg claims))
  else Raise TypeError.

(** [int(claims[name])] inside [try: ... except ValueError: raise
    JWTClaimsError(...)]: only [ValueError] is turned into a claims error,
    the [TypeError] of [int(None)] and the [OverflowError] of an infinite
    float are not caught. *)
Definition int_claim (why : string) (v : pyval) : exn + Z :=
  match int_ v with
  | inl ValueError => inl (JWTError why)
  | r => r
  end.

(** The validators of [jwt._validate_claims], each returning the error it
    raises, if any.  [now] is the clock in whole seconds. *)
Definition validate_iat (claims : gmap string pyval) : option exn :=
  match claims !! "iat" with
  | None => None
  | Some v =>
      match int_claim "Issued At claim (iat) must be an integer." v with
      | inl e => Some e
      | inr _ => None
      end
  end.

Definition validate_nbf (claims : gmap string pyval) (now : Z)
  : option exn :=
  match claims !! "nbf" with
  | None => None
  | Some v =>
      match int_claim "Not Before claim (nbf) must be an integer." v with
      | inl e => Some e
      | inr nbf =>
          if nbf >? now then Some (JWTError "The token is not yet valid (nbf)")
          else None
      end
  end.

(** [_validate_exp]: the token has expired once [exp < now]. *)
Definition validate_exp (claims : gmap string pyval) (now : Z)
  : option exn :=
  match claims !! "exp" with
  | None => None
  | Some v =>
      match int_claim "Expiration Time claim (exp) must be an integer." v with
      | inl e => Some e
      | inr exp =>
          if exp <? now then Some (JWTError "Signature has expired.")
          else None
      end
  end.

(** [_validate_aud] with [audience=None]: [None] is no audience of the
    token, so a token that names an audience is refused. *)
Definition validate_aud (claims : gmap string pyval) : option exn :=
  match claims !! "aud" with
  | None => None
  | Some (PStr _) => Some (JWTError "Invalid audience")
  | Some _ => Some (JWTError "Invalid claim format in token")
  end.

(** [_validate_sub]: a subject, when present, must be a string. *)
Definition validate_sub (claims : gmap string pyval) : option exn :=
  match claims !! "sub" with
  | None | Some (PStr _) => None
  | Some _ => Some (JWTError "Subject must be a string.")
  end.

Definition validate_jti (claims : gmap string pyval) : option exn :=
  match claims !! "jti" with
  | None | Some (PStr _) => None
  | Some _ => Some (JWTError "JWT ID must be a string.")
  end.

(** [_validate_at_hash] with no [access_token] given. *)
Definition validate_at_hash (claims : gmap string pyval) : option exn :=
  match claims !! "at_hash" with
  | None => None
  | Some _ =>
      Some (JWTError
              "No access_token provided to compare against at_hash claim.")
  end.

(** [_validate_claims] with the default options and no audience, issuer or
    subject to compare with: iat, nbf, exp, aud, sub, jti, at_hash, in
    this order (the issuer check does nothing without an issuer); the
    first error is raised. *)
Definition validate_claims (claims : gmap string pyval) (now : Z)
  : option exn :=
  match validate_iat claims with Some e => Some e | None =>
  match validate_nbf claims now with Some e => Some e | None =>
  match validate_exp claims now with Some e => Some e | None =>
  match validate_aud claims with Some e => Some e | None =>
  match validate_sub claims with Some e => Some e | None =>
  match validate_jti claims with Some e => Some e | None =>
  validate_at_hash claims
  end end end end end end.

(** [jwt.decode(token, key, algorithms=[...])].  What [jws.verify] refuses
    is raised as a [JWTError]; the claims errors are subclasses of it. *)
Definition decode (t : token) (key : string) (algorithms : list string)
  : prog (gmap string pyval) :=
  match t with
  | Garbled _ => Raise (JWTError "Not enough segments")
  | Nested _ => Raise RecursionError
  | Jws alg claims sig =>
      if bool_decide (alg ∈ algorithms) then
        if bool_decide (sig = Hmac key alg claims) then
          now <- call time_now ;;
          match validate_claims claims (timegm now) with
          | Some e => Raise e
          | None => Ret claims
          end
        else Raise (JWTError "Signature verification failed.")
      else Raise (JWTError "The specified alg value is not allowed")
  end.

End jwt.

(** ** data.py *)

Definition SECRET_KEY : string :=
  "1234567890abcdef1234567890abcdef1234567890abcdef1234567890abcdef".
Definition ALGORITHM : string := "HS256".
Definition ACCESS_TOKEN_EXPIRE_MINUTES : Z := 30.

(** [timedelta(minutes=m)], in milliseconds. *)
Definition minutes (m : Z) : Z := m * 60 * 1000.

(** [create_access_token(data, expires_delta)], signing with [secret]
    (the module's [SECRET_KEY]).  A zero [timedelta] is false in Python
    and takes the default branch. *)
Definition create_access_token (secret : string) (data : gmap string pyval)
    (expires_delta : option Z) : prog jwt.token :=
  let to_encode := data in
  now <- call time_now ;;
  let expire :=
    match expires_delta with
    | Some d => if d =? 0 then now + minutes 30 else now + d
    | None => now + minutes 30
    end in
  let to_encode := <["exp" := PDatetime expire]> to_encode in
  encoded_jwt <- jwt.encode to_encode secret ALGORITHM ;;
  Ret encoded_jwt.

Definition credentials_exception : exn :=
  HTTPException 401 "Could not validate credentials"
                [("WWW-Authenticate", "Bearer")].

Definition get_user (name : string) : prog (option User) :=
  call (db_get_user name).

(** [get_current_user(token, db)], checking against [secret]. *)
Definition get_current_user (secret : string) (token : jwt.token) : prog User :=
  name <-
    except_JWTError
      (payload <- jwt.decode token secret [ALGORITHM] ;;
       match payload !! "sub" with
       | Some (PStr name) => Ret name
       | _ => Raise credentials_exception
       end)
      (Raise credentials_exception) ;;
  user <- get_user name ;;
  match user with
  | None => Raise credentials_exception
  | Some u => Ret u
  end.

(** ** notes.py *)

Definition not_found : exn := HTTPException 404 "Note not found" [].
Definition forbidden (detail : string) : exn := HTTPException 403 detail [].

(** [f"notes:{current_user.id}:{skip}:{limit}:{search}"] *)
Definition cache_key (uid skip limit : Z) (search : option string) : string :=
  "notes:" +:+ py_str uid +:+ ":" +:+ py_str skip +:+ ":" +:+ py_str limit
           +:+ ":" +:+ fmt_search search.

(** [f"notes:{current_user.id}:*"] *)
Definition owner_pattern (uid : Z) : string :=
  "notes:" +:+ py_str uid +:+ ":*".

Definition create_note (note : NoteCreate) (current_user : User) : prog Note :=
  new_note <- call (db_add_note (nc_title note) (nc_content note)
                                (user_id current_user)) ;;
  Ret new_note.

(** [json.loads(cached)]: a text that is not a listing makes [json.loads]
    or the response model fail. *)
Definition json_loads (cached : option redis_val) : prog (list Note) :=
  match cached with
  | Some (VJson rows) => Ret rows
  | _ => Raise ValueError
  end.

Definition get_notes (current_user : User) (skip limit : Z)
    (search : option string) : prog (list Note) :=
  let key := cache_key (user_id current_user) skip limit search in
  cached <- call (redis_get key) ;;
  if truthy cached then json_loads cached
  else
    let like :=
      match search with
      | Some EmptyString | None => None
      | Some s => Some ("%" +:+ s +:+ "%")
      end in
    notes <- call (db_select_notes (user_id current_user) like skip limit) ;;
    call (redis_set key (VJson notes) 60) ;;;
    Ret notes.

Definition get_note (id : Z) (current_user : User) : prog Note :=
  note <- call (db_get_note id) ;;
  match note with
  | None => Raise not_found
  | Some note =>
      if bool_decide (owner_id note ≠ user_id current_user)
      then Raise (forbidden "Not authorized to access this note")
      else Ret note
  end.

Definition apply_update (note_update : NoteUpdate) (note : Note) : Note :=
  {| note_id := note_id note;
     title := default (title note) (nu_title note_update);
     content := default (content note) (nu_content note_update);
     owner_id := owner_id note |}.

Definition update_note (id : Z) (note_update : NoteUpdate)
    (current_user : User) : prog Note :=
  call (redis_delete (owner_pattern (user_id current_user))) ;;;
  note <- call (db_get_note id) ;;
  match note with
  | None => Raise not_found
  | Some note =>
      if bool_decide (owner_id note ≠ user_id current_user)
      then Raise (forbidden "Not authorized to update this note")
      else
        note <- call (db_commit_note (apply_update note_update note)) ;;
        call (redis_delete (owner_pattern (user_id current_user))) ;;;
        Ret note
  end.

Definition delete_note (id : Z) (current_user : User) : prog unit :=
  note <- call (db_get_note id) ;;
  match note with
  | None => Raise not_found
  | Some note =>
      if bool_decide (owner_id note ≠ user_id current_user)
      then Raise (forbidden "Not authorized to delete this note")
      else
        call (db_delete_note note) ;;;
        call (redis_delete (owner_pattern (user_id current_user))) ;;;
        Ret tt
  end.

(** ** main.py *)

Definition hash_password (pw : string) : prog string :=
  call (pwd_context_hash pw).

(** [require_role(role)] returns the checker; the checker receives the user
    [get_current_user] resolved. *)
Definition require_role (r : string) : User -> prog User :=
  fun user =>
    if bool_decide (role user ≠ r)
    then Raise (forbidden "Operation not permitted")
    else Ret user.

Definition register (user : UserCreate) : prog User :=
  db_user <- get_user (uc_username user) ;;
  match db_user with
  | Some _ => Raise (HTTPException 400 "Username already registered" [])
  | None =>
      hashed <- hash_password (uc_password user) ;;
      new_user <- call (db_add_user (uc_username user) hashed "user") ;;
      Ret new_user
  end.

Record UserLogin := { ul_username : string; ul_password : string }.

(** The reply of [login]: [{"access_token": ..., "token_type": "bearer"}]. *)
Record Token := { access_token : jwt.token; token_type : string }.

Definition login_exception : exn :=
  HTTPException 401 "Incorrect username or password"
                [("WWW-Authenticate", "Bearer")].

(** [verify_password] hands both texts to passlib's [CryptContext.verify]
    (plain text first, stored hash second), which is taken as given: it
    answers whether the hash verifies, or raises, as it does on a stored
    text in which it recognises no bcrypt digest. *)
Definition verify_password (pwd_context_verify : string -> string -> exn + bool)
    (plain_password hashed_password : string) : prog bool :=
  match pwd_context_verify plain_password hashed_password with
  | inl e => Raise e
  | inr ok => Ret ok
  end.

(** [login(credentials, db)]; [not user or not verify_password(...)] looks
    at the password only when a user was found. *)
Definition login (pwd_context_verify : string -> string -> exn + bool)
    (credentials : UserLogin) : prog Token :=
  user <- get_user (ul_username credentials) ;;
  match user with
  | None => Raise login_exception
  | Some user =>
      ok <- verify_password pwd_context_verify (ul_password credentials)
                            (password user) ;;
      if negb ok
      then Raise login_exception
      else
        let access_token_expires := minutes ACCESS_TOKEN_EXPIRE_MINUTES in
        access_token <-
          create_access_token SECRET_KEY {["sub" := PStr (username user)]}
                              (Some access_token_expires) ;;
        Ret {| access_token := access_token; token_type := "bearer" |}
  end.

(** ** rate_limiter.py *)

Record RateLimiterMiddleware := { limit : Z; window : Z }.

Definition too_many_requests : Response :=
  {| status_code := 429; body := "Too Many Requests" |}.

(** [int(time.time())]: milliseconds to whole seconds, towards zero. *)
Definition int_time (ms : Z) : Z := Z.quot ms 1000.

(** Python's [now % window]; a zero divisor raises. *)
Definition py_mod (a b : Z) : prog Z :=
  if b =? 0 then Raise ZeroDivisionError else Ret (a mod b).

(** [f"rate:{client_ip}:{window_start}"] *)
Definition window_key (client_ip : string) (window_start : Z) : string :=
  ("rate:" +:+ client_ip) +:+ ":" +:+ py_str window_start.

(** [int(count)] on what [get] returned. *)
Definition int_of_val (v : redis_val) : prog Z :=
  match v with
  | VText s =>
      match py_int s with
      | Some n => Ret n
      | None => Raise ValueError
      end
  | VJson _ => Raise ValueError
  end.

(** [RateLimiterMiddleware.dispatch(request, call_next)]; of the request only
    [request.client.host] is used. *)
Definition dispatch (self : RateLimiterMiddleware) (client_host : string)
    (call_next : prog Response) : prog Response :=
  let client_ip := client_host in
  t <- call time_now ;;
  let now := int_time t in
  r <- py_mod now (window self) ;;
  let window_start := now - r in
  let key := window_key client_ip window_start in
  count <- call (redis_get key) ;;
  count <-
    match count with
    | None =>
        call (redis_set key (VText (py_str 1)) (window self)) ;;;
        Ret 1
    | Some count =>
        n <- int_of_val count ;;
        let count := n + 1 in
        call (redis_set key (VText (py_str count)) (window self)) ;;;
        Ret count
    end ;;
  if count >? limit self then Ret too_many_requests
  else call_next.

(** ** Running a handler *)

Inductive result (A : Type) : Type :=
  | Done (a : A)
  | Raised (e : exn).

Arguments Done {A} a.
Arguments Raised {A} e.

(** A Redis call is written to the wire; the head of [outages] says whether
    this call fails (connection lost, timeout), in which case the client
    raises and the store is left as it was. *)
Definition redis_call {X : Type} (c : redis_cmd) (f : world -> X * world)
    (w : world) : result X * world :=
  let w := sent c w in
  match outages w with
  | true :: o => (Raised RedisError, with_outages o w)
  | false :: o => let '(x, w') := f (with_outages o w) in (Done x, w')
  | [] => let '(x, w') := f w in (Done x, w')
  end.

(** The primary key the table hands out to a new row. *)
Definition next_id (ids : list Z) : Z := 1 + foldr Z.max 0 ids.

Section Interpreter.

(** The record store's [ILIKE] (pattern first) and passlib's
    [CryptContext.hash] are taken as given. *)
Variable ilike : string -> string -> bool.
Variable bcrypt : string -> string.

(** [select(Note).where(owner_id == owner)[.where(title.ilike(p))]]
    [.offset(skip).limit(limit)].  Rows come in table order.  Offset and
    limit are numbers of rows between 0 and 2^63 - 1, where the back ends
    agree.  Outside that range they do not (PostgreSQL refuses a negative
    one, SQLite reads a negative limit as no limit, and neither takes what
    does not fit 64 bits); there this function reads a negative one as
    zero. *)
Definition select_notes (rows : list Note) (owner : Z) (like : option string)
    (skip lim : Z) : list Note :=
  let mine := List.filter (fun n => owner_id n =? owner) rows in
  let hits :=
    match like with
    | None => mine
    | Some p => List.filter (fun n => ilike p (title n)) mine
    end in
  take (Z.to_nat lim) (drop (Z.to_nat skip) hits).

Definition exec {X : Type} (c : cmd X) : world -> result X * world :=
  match c in cmd X return world -> result X * world with
  | time_now => fun w => (Done (clock w), w)
  | redis_get key =>
      redis_call (GET key) (fun w => (store_get key w, w))
  | redis_set key v ex =>
      redis_call (SET key v ex) (fun w => (tt, store_set key v ex w))
  | redis_delete key =>
      redis_call (DEL key) (fun w => (tt, store_del key w))
  | db_get_note id => fun w =>
      (Done (List.find (fun n => note_id n =? id) (notes w)), w)
  | db_add_note t c owner => fun w =>
      let row := {| note_id := next_id (note_id <$> notes w);
                    title := t; content := c; owner_id := owner |} in
      (Done row, with_notes (notes w ++ [row]) w)
  | db_commit_note n => fun w =>
      (Done n,
       with_notes
         ((fun r => if note_id r =? note_id n then n else r) <$> notes w) w)
  | db_delete_note n => fun w =>
      (Done tt,
       with_notes
         (List.filter (fun r => negb (note_id r =? note_id n)) (notes w)) w)
  | db_select_notes owner like skip lim => fun w =>
      (Done (select_notes (notes w) owner like skip lim), w)
  | db_get_user name => fun w =>
      (Done (List.find (fun u => String.eqb (username u) name) (users w)), w)
  | db_add_user name pw r => fun w =>
      let row := {| user_id := next_id (user_id <$> users w);
                    username := name; password := pw; role := r |} in
      (Done row, with_users (users w ++ [row]) w)
  | pwd_context_hash pw => fun w => (Done (bcrypt pw), w)
  end.

(** A handler run to completion, no other handler in between. *)
Fixpoint run {A : Type} (p : prog A) (w : world) : result A * world :=
  match p with
  | Ret a => (Done a, w)
  | Raise e => (Raised e, w)
  | Vis c k =>
      match exec c w with
      | (Done x, w') => run (k x) w'
      | (Raised e, w') => (Raised e, w')
      end
  end.



(** The requests of a list served one after the other, each at its own
    clock reading. *)
Fixpoint serve {A : Type} (reqs : list (Z * prog A)) (w : world)
    : list (result A) * world :=
  match reqs with
  | [] => ([], w)
  | (t, p) :: reqs =>
      let '(r, w') := run p (at_time t w) in
      let '(rs, w'') := serve reqs w' in
      (r :: rs, w'')
  end.

End Interpreter.

(** ** The notes router as a whole *)

(** A request to one of the five routes, with the user [get_current_user]
    resolved for it, and what the route returns. *)
Inductive request :=
  | CreateNote (user : User) (note : NoteCreate)
  | ListNotes (user : User) (skip lim : Z) (search : option string)
  | GetNote (user : User) (id : Z)
  | UpdateNote (user : User) (id : Z) (upd : NoteUpdate)
  | DeleteNote (user : User) (id : Z).

Inductive reply :=
  | OneNote (n : Note)
  | Listing (rows : list Note)
  | NoContent.

Definition handle (r : request) : prog reply :=
  match r with
  | CreateNote u note => n <- create_note note u ;; Ret (OneNote n)
  | ListNotes u skip lim search =>
      rows <- get_notes u skip lim search ;; Ret (Listing rows)
  | GetNote u id => n <- get_note id u ;; Ret (OneNote n)
  | UpdateNote u id upd => n <- update_note id upd u ;; Ret (OneNote n)
  | DeleteNote u id => delete_note id u ;;; Ret NoContent
  end.

(** Who sent a request, and which requests change notes or list them. *)
Definition sender (r : request) : Z :=
  match r with
  | CreateNote u _ | ListNotes u _ _ _ | GetNote u _ | UpdateNote u _ _
  | DeleteNote u _ => user_id u
  end.

Definition is_mutation (r : request) : bool :=
  match r with
  | CreateNote _ _ | UpdateNote _ _ _ | DeleteNote _ _ => true
  | _ => false
  end.

Definition is_listing (r : request) : bool :=
  match r with ListNotes _ _ _ _ => true | _ => false end.

Definition mutation_by (A : Z) (r : request) : bool :=
  is_mutation r && (sender r =? A).

Definition listing_by (B : Z) (r : request) : bool :=
  is_listing r && (sender r =? B).

Definition handlers (tr : list (Z * request)) : list (Z * prog reply) :=
  (λ x, (x.1, handle x.2)) <$> tr.

(** * Vocabulary of the statements *)

(** ** Texts *)

(** A text without the character [c]; a text of decimal digits. *)
Fixpoint free_of (c : ascii) (s : string) : Prop :=
  match s with
  | EmptyString => True
  | String d s' => d ≠ c ∧ free_of c s'
  end.

Fixpoint digits_only (s : string) : Prop :=
  match s with
  | EmptyString => True
  | String d s' => is_Some (digit_val d) ∧ digits_only s'
  end.

(** ** Tables and the store *)

(** The row [db.get(Note, id)] returns. *)
Definition lookup_note (id : Z) (w : world) : option Note :=
  List.find (fun n => note_id n =? id) (notes w).

(** The row [get_user] returns. *)
Definition lookup_user (name : string) (w : world) : option User :=
  List.find (fun u => String.eqb (username u) name) (users w).


(** The replies a run gave to the listing reads of [B]. *)
Definition replies_to (B : Z) (tr : list (Z * request))
    (rs : list (result reply)) : list (result reply) :=
  snd <$> List.filter (λ x, listing_by B x.1.2) (zip tr rs).

(** The listing keys of one owner. *)
Definition keys_of (B : Z) (key : string) : Prop :=
  ∃ skip lim search, key = cache_key B skip lim search.

(** The rows of one owner, in table order. *)
Definition rows_of (B : Z) (rows : list Note) : list Note :=
  List.filter (λ n, owner_id n =? B) rows.

(** Two worlds look the same to owner [B]: the same entries under the
    listing keys of [B], the same rows of [B] in the table. *)
Definition same_view (B : Z) (w1 w2 : world) : Prop :=
  (∀ key, keys_of B key → redis w1 !! key = redis w2 !! key) ∧
  rows_of B (notes w1) = rows_of B (notes w2).

(** The primary keys of the table. *)
Definition ids (rows : list Note) : list Z := note_id <$> rows.

(** Owner [B] creates no note in the trace. *)
Definition is_create (r : request) : bool :=
  match r with CreateNote _ _ => true | _ => false end.

Definition creates_none (B : Z) (tr : list (Z * request)) : Prop :=
  Forall (λ x, negb (is_create x.2 && (sender x.2 =? B)) = true) tr.

(** The trace without the mutations of [A]. *)
Definition without_mutations (A : Z) (tr : list (Z * request))
  : list (Z * request) :=
  List.filter (λ x, negb (mutation_by A x.2)) tr.

(** The commands of a program that write to the store, and the programs
    all of whose writes avoid a set of keys. *)
Definition writes_outside (K : string → Prop) {X : Type} (c : cmd X) : Prop :=
  match c with
  | redis_set key _ _ | redis_delete key => ¬ K key
  | _ => True
  end.

Inductive quiet_on (K : string → Prop) {A : Type} : prog A → Prop :=
  | quiet_Ret (a : A) : quiet_on K (Ret a)
  | quiet_Raise (e : exn) : quiet_on K (Raise e)
  | quiet_Vis {X : Type} (c : cmd X) (k : X → prog A) :
      writes_outside K c → (∀ x, quiet_on K (k x)) → quiet_on K (Vis c k).

(** ** Tokens *)








(** What [jwt.encode] can serialise under key [k]: a [datetime] only
    where it is first turned into a timestamp. *)
Definition dumpable (k : string) (v : pyval) : bool :=
  if bool_decide (k ∈ ["exp"; "iat"; "nbf"])
  then json_able (jwt.as_timestamp v)
  else json_able v.

(** An integer within the interpreter's default limit on turning one
    into decimal text (4300 digits); any other value. *)
Definition printable (v : pyval) : Prop :=
  match v with
  | PInt n => Z.abs n < 10 ^ 4300
  | _ => True
  end.

(** The instants (ms) a [datetime] can hold: the years 1 to 9999. *)
Definition datetime_range (ms : Z) : Prop :=
  -62135596800000 ≤ ms ≤ 253402300799999.

(** The lifetime [create_access_token] gives a token. *)
Definition lifetime (expires_delta : option Z) : Z :=
  match expires_delta with
  | Some d => if d =? 0 then minutes 30 else d
  | None => minutes 30
  end.

(** The claims of a token issued for [subject] with expiry second [e]. *)
Definition issued_claims (subject : string) (e : Z) : gmap string pyval :=
  <["exp" := PInt e]> {["sub" := PStr subject]}.

(** The token [jwt.encode] makes of them. *)
Definition issued_token (secret subject : string) (e : Z) : jwt.token :=
  jwt.Jws ALGORITHM (issued_claims subject e)
          (jwt.Hmac secret ALGORITHM (issued_claims subject e)).

(** ** Windows *)

(** [t] (ms) lies in the clock-aligned bucket of length [W] seconds that
    starts at second [ws]. *)
Definition in_bucket (W ws t : Z) : Prop :=
  0 ≤ ws ∧ ws `mod` W = 0 ∧ 1000 * ws ≤ t < 1000 * (ws + W).

(** The counter of [host] for the bucket at [ws] reads [n]: no key before
    the first request, afterwards the decimal text of [n] with a deadline
    that outlasts the bucket. *)
Definition counter_is (self : RateLimiterMiddleware) (host : string)
    (ws n : Z) (w : world) : Prop :=
  if n =? 0 then redis w !! window_key host ws = None
  else ∃ d, redis w !! window_key host ws = Some (VText (py_str n), d) ∧
            1000 * (ws + window self) ≤ d.

(** The requests of one client at the given clock readings; downstream
    answers [ok] and touches nothing. *)
Definition requests (self : RateLimiterMiddleware) (host : string)
    (ok : Response) (ts : list Z) : list (Z * prog Response) :=
  (λ t, (t, dispatch self host (Ret ok))) <$> ts.

(** What [k] further requests get when the counter reads [n]. *)
Fixpoint verdicts (self : RateLimiterMiddleware) (ok : Response) (n : Z)
    (k : nat) : list (result Response) :=
  match k with
  | O => []
  | S k =>
      Done (if n + 1 >? limit self then too_many_requests else ok)
        :: verdicts self ok (n + 1) k
  end.

(** What [int(count)] can read: nothing stored yet, or a decimal text. *)
Definition readable (v : option redis_val) : Prop :=
  match v with
  | None => True
  | Some (VText s) => is_Some (py_int s)
  | Some (VJson _) => False
  end.

(** The window key [dispatch] uses when the clock reads [t]. *)
Definition key_at (self : RateLimiterMiddleware) (host : string) (t : Z)
  : string :=
  window_key host (int_time t - int_time t `mod` window self).


(** The counter keys of one client, and the counter keys of all. *)
Definition counters_of (host : string) (key : string) : Prop :=
  ∃ ws, key = window_key host ws.

Definition rate_keys (key : string) : Prop :=
  ∃ host ws, key = window_key host ws.

(** An offset or a limit that every record store takes as a number of
    rows: a non-negative 64-bit integer. *)
Definition row_count (n : Z) : Prop := 0 ≤ n ≤ 9223372036854775807.

(** The [ILIKE] pattern [get_notes] makes of its search text, if any. *)
Definition like_of (search : option string) : option string :=
  match search with
  | Some EmptyString | None => None
  | Some s => Some ("%" +:+ s +:+ "%")
  end.

(** ** Worlds and users of the examples *)

(** Collaborators for the examples: a matcher that accepts every title and
    a hash that tags the password.  No statement depends on the choice. *)
Definition any_title (pattern title : string) : bool := true.
Definition tagged_hash (pw : string) : string := "$2b$" +:+ pw.

Definition alice : User :=
  {| user_id := 1; username := "alice"; password := "$2b$secret-a";
     role := "user" |}.

Definition bob : User :=
  {| user_id := 2; username := "bob"; password := "$2b$secret-b";
     role := "admin" |}.

(** Redis empty and answering, both users registered, no notes yet. *)
Definition world0 : world :=
  {| clock := 1700000000000; redis := ∅; outages := []; wire := [];
     notes := []; users := [alice; bob] |}.

Definition ok200 : Response := {| status_code := 200; body := "ok" |}.

Definition five_per_minute : RateLimiterMiddleware :=
  {| limit := 5; window := 60 |}.

Definition first_note : NoteCreate := {| nc_title := "t"; nc_content := "c" |}.

(** Alice has listed her notes (a miss: the empty list is cached), and then
    created a note. *)
Definition world_listed : world :=
  (run any_title tagged_hash (get_notes alice 0 10 None) world0).2.
Definition world_created : world :=
  (run any_title tagged_hash (handle (CreateNote alice first_note))
     world_listed).2.

(** Redis does not answer the next call. *)
Definition world_outage : world := with_outages [true] world0.

(** Alice logs in at time zero for thirty minutes: the token carries the
    expiry second 1800. *)
Definition world_login : world := at_time 0 world0.
Definition alice_token : jwt.token := issued_token SECRET_KEY "alice" 1800.


(** Bob lists, Alice creates and updates a note, Bob renames a note of
    his own, and lists again once the cached listing has expired. *)
Definition mixed_trace : list (Z * request) :=
  [(1700000000000, ListNotes bob 0 10 None);
   (1700000001000, CreateNote alice first_note);
   (1700000002000,
    UpdateNote alice 1 {| nu_title := Some "t2"; nu_content := None |});
   (1700000003000,
    UpdateNote bob 2 {| nu_title := Some "b2"; nu_content := None |});
   (1700000061000, ListNotes bob 0 10 None)].

(** Alice creates a note, Bob creates a note, Bob lists. *)
Definition both_create : list (Z * request) :=
  [(1700000000000, CreateNote alice first_note);
   (1700000001000, CreateNote bob first_note);
   (1700000002000, ListNotes bob 0 10 None)].


Definition alice_note : Note :=
  {| note_id := 1; title := "t"; content := "c"; owner_id := 1 |}.

Definition world_note : world := with_notes [alice_note] world0.

(** A verifier that fits [tagged_hash], a second limiter client, a burst of
    requests around a bucket boundary, and a table with one note of each
    user. *)
Definition tagged_verify (pw hashed : string) : exn + bool :=
  if String.prefix "$2b$" hashed then inr (String.eqb hashed (tagged_hash pw))
  else inl ValueError.

(** A user table with a row whose password was stored as it was typed. *)
Definition carol : User :=
  {| user_id := 3; username := "carol"; password := "secret-c";
     role := "user" |}.
Definition world_legacy : world := with_users [alice; bob; carol] world0.

Definition ten_per_minute : RateLimiterMiddleware :=
  {| limit := 10; window := 60 |}.

Definition end_of_bucket : list Z :=
  [1700000039996; 1700000039997; 1700000039998; 1700000039999].

Definition start_of_next : list Z :=
  [1700000040000; 1700000040001; 1700000040002; 1700000040003].

Definition bob_note : Note :=
  {| note_id := 2; title := "b"; content := "d"; owner_id := 2 |}.

Definition world_two_notes : world := with_notes [alice_note; bob_note] world0.

(** * Properties *)

(** ** Decimal texts and keys *)

Lemma str_app_cons (a : ascii) (s t : string) : String a s +:+ t = String a (s +:+ t).
Proof. reflexivity. Qed.

Lemma str_app_nil_l (t : string) : "" +:+ t = t.
Proof. reflexivity. Qed.

Lemma str_app_nil_r (s : string) : s +:+ "" = s.
Proof. induction s as [|a s IH]; [done|]. by rewrite str_app_cons, IH. Qed.

Lemma str_app_assoc (s t u : string) : (s +:+ t) +:+ u = s +:+ t +:+ u.
Proof. induction s as [|a s IH]; [done|]. by rewrite !str_app_cons, IH. Qed.

Lemma free_of_app (c : ascii) (s t : string) :
  free_of c s → free_of c t → free_of c (s +:+ t).
Proof.
  induction s as [|a s IH]; [done|].
  rewrite str_app_cons. simpl. intros [? ?] ?. split; auto.
Qed.

Lemma digits_only_app (s t : string) :
  digits_only s → digits_only t → digits_only (s +:+ t).
Proof.
  induction s as [|a s IH]; [done|].
  rewrite str_app_cons. simpl. intros [? ?] ?. split; auto.
Qed.

Lemma digits_only_free (c : ascii) (s : string) :
  digit_val c = None → digits_only s → free_of c s.
Proof.
  intros Hc. induction s as [|a s IH]; [done|].
  simpl. intros [[d Hd] Hs]. split; [|auto].
  intros ->. congruence.
Qed.

(** Two texts that agree up to and including their first separator agree on
    both sides of it. *)
Lemma split_at_sep (c : ascii) (p1 p2 r1 r2 : string) :
  free_of c p1 → free_of c p2 →
  p1 +:+ String c r1 = p2 +:+ String c r2 → p1 = p2 ∧ r1 = r2.
Proof.
  revert p2. induction p1 as [|a p1 IH]; intros [|b p2]; simpl;
    rewrite ?str_app_cons, ?str_app_nil_l.
  - intros _ _ [= ->]. done.
  - intros _ [Hb _] [= <- _]. done.
  - intros [Ha _] _ [= -> _]. done.
  - intros [_ H1] [_ H2] [= -> Hrest].
    destruct (IH _ H1 H2 Hrest) as [-> ->]. done.
Qed.

Lemma digit_val_char (d : N) : (d < 10)%N → digit_val (pretty_N_char d) = Some d.
Proof.
  intros Hd.
  assert (d = 0 ∨ d = 1 ∨ d = 2 ∨ d = 3 ∨ d = 4 ∨ d = 5 ∨ d = 6 ∨ d = 7
          ∨ d = 8 ∨ d = 9)%N as H by lia.
  repeat (destruct H as [->|H]; [reflexivity|]). by subst.
Qed.

Lemma digits_go_app (acc : N) (s t : string) :
  digits_go acc (s +:+ t) = digits_go acc s ≫= λ v, digits_go v t.
Proof.
  revert acc. induction s as [|a s IH]; intros acc; [done|].
  rewrite str_app_cons. simpl. destruct (digit_val a); [apply IH|done].
Qed.

(** The digits [pretty] puts in front of its accumulator, and their value. *)
Lemma pretty_N_go_digits (x : N) :
  ∃ (ds : string) (m : N),
    (∀ s, pretty_N_go x s = ds +:+ s) ∧ digits_only ds ∧
    ((0 < x)%N → ds ≠ "") ∧
    ∀ acc, digits_go acc ds = Some (acc * m + x)%N.
Proof.
  induction (N.lt_wf_0 x) as [x _ IH].
  assert (x = 0 ∨ 0 < x)%N as [->|Hx] by lia.
  { exists "", 1%N. split; [done|]. split; [done|]. split; [lia|].
    intros acc. simpl. f_equal. lia. }
  destruct (IH (x `div` 10)%N) as (ds & m & Hgo & Hds & _ & Hval).
  { by apply N.div_lt. }
  set (c := pretty_N_char (x `mod` 10)).
  assert (digit_val c = Some (x `mod` 10)%N) as Hc.
  { apply digit_val_char. by apply N.mod_lt. }
  exists (ds +:+ String c ""), (10 * m)%N.
  split; [|split; [|split]].
  - intros s. rewrite pretty_N_go_step by done. fold c.
    by rewrite Hgo, str_app_assoc.
  - apply digits_only_app; [done|]. simpl. rewrite Hc. eauto.
  - intros _. destruct ds; done.
  - intros acc. rewrite digits_go_app, Hval. simpl. rewrite Hc. simpl.
    f_equal. pose proof (N.div_mod x 10). lia.
Qed.

Lemma pretty_pos_digits (p : positive) :
  ∃ (a : ascii) (ds : string),
    pretty (N.pos p) = String a ds ∧ digits_only (String a ds) ∧
    digits_go 0 (String a ds) = Some (N.pos p).
Proof.
  destruct (pretty_N_go_digits (N.pos p)) as (ds & m & Hgo & Hds & Hne & Hval).
  unfold pretty, pretty_N. case_decide; [done|].
  rewrite Hgo, str_app_nil_r.
  destruct ds as [|a ds]; [by destruct Hne|].
  exists a, ds. repeat split; try apply Hds. by rewrite Hval.
Qed.

Lemma digit_not_dash (a : ascii) : is_Some (digit_val a) → Ascii.eqb a "-" = false.
Proof.
  intros [d Hd]. destruct (Ascii.eqb a "-") eqn:E; [|done].
  apply Ascii.eqb_eq in E as ->. done.
Qed.

(** [int(str(n)) == n] *)
Lemma py_int_str (n : Z) : py_int (py_str n) = Some n.
Proof.
  destruct n as [|p|p]; [done|..]; unfold py_str, pretty, pretty_Z.
  - change (pretty p) with (pretty (N.pos p)).
    destruct (pretty_pos_digits p) as (a & ds & -> & [Ha _] & Hval).
    unfold py_int. rewrite (digit_not_dash a Ha). simpl in Hval |- *.
    rewrite Hval. done.
  - change (pretty p) with (pretty (N.pos p)).
    destruct (pretty_pos_digits p) as (a & ds & -> & _ & Hval).
    unfold py_int. rewrite str_app_cons, str_app_nil_l. simpl Ascii.eqb.
    rewrite Hval. done.
Qed.

(** [str(n)] holds nothing but digits and a minus sign. *)
Lemma py_str_free (c : ascii) (n : Z) :
  digit_val c = None → c ≠ "-"%char → free_of c (py_str n).
Proof.
  intros Hc Hdash.
  destruct n as [|p|p]; unfold py_str, pretty, pretty_Z.
  - simpl. split; [|done]. intros <-. done.
  - change (pretty p) with (pretty (N.pos p)).
    destruct (pretty_pos_digits p) as (a & ds & -> & Hds & _).
    by apply digits_only_free.
  - change (pretty p) with (pretty (N.pos p)).
    destruct (pretty_pos_digits p) as (a & ds & -> & Hds & _).
    rewrite str_app_cons, str_app_nil_l. split; [done|].
    by apply digits_only_free.
Qed.

Lemma py_str_nonempty (n : Z) : py_str n ≠ "".
Proof.
  destruct n as [|p|p]; unfold py_str, pretty, pretty_Z; [done|..].
  - change (pretty p) with (pretty (N.pos p)).
    by destruct (pretty_pos_digits p) as (a & ds & -> & _).
  - done.
Qed.

Lemma py_str_inj (m n : Z) : py_str m = py_str n → m = n.
Proof. apply pretty_Z_inj. Qed.

(** The owner is the first field of a listing key. *)
Lemma cache_key_owner (u1 u2 s1 s2 l1 l2 : Z) (q1 q2 : option string) :
  cache_key u1 s1 l1 q1 = cache_key u2 s2 l2 q2 → u1 = u2.
Proof.
  unfold cache_key. intros H.
  apply (inj (String.app "notes:")) in H.
  apply split_at_sep in H as [H _]; [by apply py_str_inj|..];
    by apply py_str_free.
Qed.

(** The invalidation pattern is not the key of any listing. *)
Lemma owner_pattern_not_key (u1 u2 s l : Z) (q : option string) :
  owner_pattern u1 ≠ cache_key u2 s l q.
Proof.
  unfold owner_pattern, cache_key. intros H.
  apply (inj (String.app "notes:")) in H.
  apply split_at_sep in H as [_ H]; [|by apply py_str_free..].
  destruct (py_str s) as [|a t] eqn:E; [by apply py_str_nonempty in E|].
  rewrite str_app_cons in H. injection H as <- H.
  pose proof (py_str_free "*" s eq_refl ltac:(done)) as Hfree.
  rewrite E in Hfree. by destruct Hfree.
Qed.

(** One client's window keys are told apart by their window start. *)
Lemma window_key_inj (ip : string) (ws1 ws2 : Z) :
  window_key ip ws1 = window_key ip ws2 → ws1 = ws2.
Proof.
  unfold window_key. rewrite !str_app_assoc. intros H.
  apply (inj (String.app "rate:")), (inj (String.app ip)) in H.
  apply (inj (String.app ":")) in H. by apply py_str_inj.
Qed.

Section Handlers.

Variable ilike : string -> string -> bool.
Variable bcrypt : string -> string.

Local Abbreviation run := (run ilike bcrypt).
Local Abbreviation serve := (serve ilike bcrypt).
Local Abbreviation interleave := (interleave ilike bcrypt).

(** ** The role gate *)

(** C6. [require_role] raises 403 exactly when the user's role is not the
    required string, and returns the user otherwise; roles are compared
    for equality, so a role other than "admin" never passes a check for
    "admin". *)
Theorem require_role_strict (r : string) (user : User) (w : world) :
  (run (require_role r user) w
     = (Raised (forbidden "Operation not permitted"), w) ↔ role user ≠ r) ∧
  (run (require_role r user) w = (Done user, w) ↔ role user = r) ∧
  (role user ≠ "admin" →
   run (require_role "admin" user) w
     = (Raised (forbidden "Operation not permitted"), w)).
Proof.
  unfold require_role. split; [|split].
  - case_bool_decide; simpl; split; intros; solve [done | congruence].
  - case_bool_decide; simpl; split; intros; solve [done | congruence].
  - intros H. rewrite bool_decide_true by done. done.
Qed.

(** ** Registration *)

(** C10. Whatever the request carries, [register] either refuses a taken
    username and leaves the table alone, or appends one row whose role is
    "user" and returns that row. *)
Theorem register_role_user (user : UserCreate) (w : world) :
  match lookup_user (uc_username user) w with
  | Some _ =>
      run (register user) w
        = (Raised (HTTPException 400 "Username already registered" []), w)
  | None =>
      ∃ u, run (register user) w = (Done u, with_users (users w ++ [u]) w) ∧
           role u = "user" ∧ username u = uc_username user ∧
           password u = bcrypt (uc_password user)
  end.
Proof.
  unfold register, get_user, hash_password, call, lookup_user. simpl.
  destruct (List.find _ (users w)) as [u|]; simpl; [done|].
  eexists. split; [reflexivity|]. done.
Qed.

(** ** Single-note handlers *)

(** Whatever a Redis call does, it leaves both tables alone. *)
Lemma redis_call_tables {X : Type} (c : redis_cmd) (f : world -> X * world)
    (w : world) :
  (∀ w0, notes (f w0).2 = notes w0 ∧ users (f w0).2 = users w0) →
  notes (redis_call c f w).2 = notes w ∧ users (redis_call c f w).2 = users w.
Proof.
  intros Hf. unfold redis_call. simpl.
  destruct (outages w) as [|[] o]; simpl; [|done|].
  - destruct (f _) as [x w'] eqn:E. simpl.
    specialize (Hf (sent c w)). by rewrite E in Hf.
  - destruct (f _) as [x w'] eqn:E. simpl.
    specialize (Hf (with_outages o (sent c w))). by rewrite E in Hf.
Qed.

Lemma redis_delete_tables (key : string) (w : world) :
  notes (exec ilike bcrypt (redis_delete key) w).2 = notes w ∧
  users (exec ilike bcrypt (redis_delete key) w).2 = users w.
Proof. simpl. by apply redis_call_tables. Qed.


(** ** Tokens *)



(** What [get_current_user] makes of a token in three segments: a wrong
    algorithm, a wrong tag and every [JWTError] of the claims checks
    become the one [credentials_exception]; any other error of the claims
    checks passes through; then the subject is looked up. *)
Lemma get_current_user_Jws (secret alg : string)
    (claims : gmap string pyval) (sig : jwt.tag) (w : world) :
  run (get_current_user secret (jwt.Jws alg claims sig)) w
    = (if bool_decide (alg ∈ [ALGORITHM]) then
         if bool_decide (sig = jwt.Hmac secret alg claims) then
           match jwt.validate_claims claims (jwt.timegm (clock w)) with
           | Some (JWTError _) => Raised credentials_exception
           | Some e => Raised e
           | None =>
               match claims !! "sub" with
               | Some (PStr name) =>
                   match lookup_user name w with
                   | Some u => Done u
                   | None => Raised credentials_exception
                   end
               | _ => Raised credentials_exception
               end
           end
         else Raised credentials_exception
       else Raised credentials_exception, w).
Proof.
  unfold get_current_user, get_user, call, lookup_user. simpl.
  case_bool_decide; simpl; [|done].
  case_bool_decide; simpl; [|done].
  destruct (jwt.validate_claims _ _) as [[]|]; simpl; try done.
  destruct (claims !! "sub") as [[]|]; simpl; try done.
  by destruct (List.find _ (users w)).
Qed.


(** The claims checks on a token that carries a subject and an expiry
    second and nothing else. *)
Lemma validate_issued (subject : string) (e now : Z) :
  jwt.validate_claims (issued_claims subject e) now
    = if e <? now then Some (JWTError "Signature has expired.") else None.
Proof.
  unfold jwt.validate_claims, jwt.validate_iat, jwt.validate_nbf,
    jwt.validate_exp, jwt.validate_aud, jwt.validate_sub, jwt.validate_jti,
    jwt.validate_at_hash.
  change (issued_claims subject e !! "iat") with (@None pyval).
  change (issued_claims subject e !! "nbf") with (@None pyval).
  change (issued_claims subject e !! "exp") with (Some (PInt e)).
  change (issued_claims subject e !! "aud") with (@None pyval).
  change (issued_claims subject e !! "sub") with (Some (PStr subject)).
  change (issued_claims subject e !! "jti") with (@None pyval).
  change (issued_claims subject e !! "at_hash") with (@None pyval).
  simpl. by destruct (e <? now).
Qed.



(** What [login] obtains from [create_access_token]. *)
Lemma create_access_token_issues (secret subject : string)
    (expires_delta : option Z) (w : world) :
  run (create_access_token secret {["sub" := PStr subject]} expires_delta) w
    = (Done (issued_token secret subject
               (jwt.timegm (clock w + lifetime expires_delta))), w).
Proof.
  unfold create_access_token, call, lifetime. simpl.
  destruct expires_delta as [d|]; [destruct (d =? 0)|]; reflexivity.
Qed.

Lemma decode_issued (secret key subject : string) (e : Z) (w : world) :
  run (jwt.decode (issued_token secret subject e) key [ALGORITHM]) w
    = (if bool_decide (key = secret) then
         if e <? jwt.timegm (clock w)
         then Raised (JWTError "Signature has expired.")
         else Done (issued_claims subject e)
       else Raised (JWTError "Signature verification failed."), w).
Proof.
  unfold jwt.decode, issued_token, call.
  rewrite bool_decide_true by (apply list_elem_of_singleton; done).
  destruct (decide (key = secret)) as [->|Hkey].
  - rewrite !bool_decide_true by done. simpl. rewrite validate_issued.
    destruct (e <? _); done.
  - rewrite !bool_decide_false by congruence. done.
Qed.

(** What [get_current_user] makes of a token issued for [subject]. *)
Lemma get_current_user_issued (secret key subject : string) (e : Z)
    (w : world) :
  run (get_current_user key (issued_token secret subject e)) w
    = (if bool_decide (key = secret) then
         if e <? jwt.timegm (clock w) then Raised credentials_exception
         else match lookup_user subject w with
              | Some u => Done u
              | None => Raised credentials_exception
              end
       else Raised credentials_exception, w).
Proof.
  unfold issued_token. rewrite get_current_user_Jws.
  rewrite bool_decide_true by (apply list_elem_of_singleton; done).
  destruct (decide (key = secret)) as [->|Hkey];
    [|by rewrite !bool_decide_false by congruence].
  rewrite !bool_decide_true by done. rewrite validate_issued.
  destruct (e <? _); [done|].
  by change (issued_claims subject e !! "sub") with (Some (PStr subject)).
Qed.

(** C5, as the code has it.  A token issued for [subject] under [secret]
    carries the expiry second [e] (issue time plus lifetime, in whole
    seconds).  Checked under the same secret it is accepted, and resolves
    to the subject's user, as long as the clock's second is at most [e] —
    the expiry second included — and refused once the clock's second is
    past [e]; checked under any other secret it is refused at any time. *)
Theorem token_validity_window (secret subject : string)
    (expires_delta : option Z) (w0 : world) :
  ∃ t e,
    run (create_access_token secret {["sub" := PStr subject]} expires_delta)
        w0 = (Done t, w0) ∧
    e = jwt.timegm (clock w0 + lifetime expires_delta) ∧
    ∀ w : world,
      (jwt.timegm (clock w) ≤ e →
         (∃ claims,
            run (jwt.decode t secret [ALGORITHM]) w = (Done claims, w) ∧
            claims !! "sub" = Some (PStr subject)) ∧
         ∀ u, lookup_user subject w = Some u →
              run (get_current_user secret t) w = (Done u, w)) ∧
      (e < jwt.timegm (clock w) →
         run (get_current_user secret t) w
           = (Raised credentials_exception, w)) ∧
      (∀ other, other ≠ secret →
         run (get_current_user other t) w
           = (Raised credentials_exception, w)).
Proof.
  eexists _, _. split; [apply create_access_token_issues|].
  split; [reflexivity|].
  set (e := jwt.timegm _). intros w.
  split; [|split].
  - intros Hle. apply Z.ltb_ge in Hle. split.
    + exists (issued_claims subject e). rewrite decode_issued.
      rewrite bool_decide_true by done. by rewrite Hle.
    + intros u Hu. rewrite get_current_user_issued.
      rewrite bool_decide_true by done. by rewrite Hle, Hu.
  - intros Hlt. apply Z.ltb_lt in Hlt. rewrite get_current_user_issued.
    rewrite bool_decide_true by done. by rewrite Hlt.
  - intros other Hother. rewrite get_current_user_issued.
    by rewrite bool_decide_false.
Qed.

(** ** The rate limiter *)

Lemma window_start_of (W ws t : Z) :
  1 ≤ W → in_bucket W ws t →
  int_time t - int_time t `mod` W = ws.
Proof.
  intros HW (Hws & Hal & Ht). unfold int_time.
  rewrite Z.quot_div_nonneg by lia.
  assert (ws ≤ t `div` 1000 < ws + W) as Hnow.
  { split; [apply Z.div_le_lower_bound; lia|apply Z.div_lt_upper_bound; lia]. }
  set (now := t `div` 1000) in *.
  apply Z.mod_divide in Hal as [q Hq]; [|lia].
  replace now with ((now - ws) + q * W) at 2 by lia.
  rewrite Z_mod_plus_full, Z.mod_small by lia. lia.
Qed.

(** One request in the bucket, the store answering: the counter goes from
    [n] to [n + 1], the request is handed on unless [n + 1] exceeds the
    limit, and no other key is touched. *)
Lemma dispatch_in_bucket (self : RateLimiterMiddleware) (host : string)
    (ok : Response) (w : world) (ws t n : Z) :
  1 ≤ window self → in_bucket (window self) ws t →
  outages w = [] → 0 ≤ n → counter_is self host ws n w →
  ∃ w',
    run (dispatch self host (Ret ok)) (at_time t w)
      = (Done (if n + 1 >? limit self then too_many_requests else ok), w') ∧
    outages w' = [] ∧ counter_is self host ws (n + 1) w' ∧
    (∀ k, k ≠ window_key host ws → redis w' !! k = redis w !! k).
Proof.
  intros HW Hb Hout Hn Hc.
  pose proof (window_start_of _ _ _ HW Hb) as Hws.
  destruct Hb as (Hws0 & Hal & Ht).
  unfold dispatch, py_mod, call.
  destruct (window self =? 0) eqn:E; [lia|]. simpl.
  rewrite Hws. unfold redis_call. simpl. rewrite Hout.
  unfold store_get. simpl.
  unfold counter_is in Hc. destruct (n =? 0) eqn:En.
  - apply Z.eqb_eq in En as ->. rewrite Hc. simpl.
    unfold redis_call. simpl. rewrite Hout. simpl.
    change (0 + 1) with 1.
    eexists. split; [destruct (1 >? limit self); reflexivity|].
    simpl. split; [done|]. split.
    + unfold counter_is. simpl. rewrite lookup_insert_eq.
      eexists. split; [done|]. lia.
    + intros k Hk. by rewrite lookup_insert_ne.
  - destruct Hc as (d & Hd & Hlive). rewrite Hd. simpl.
    unfold live. simpl. rewrite (proj2 (Z.leb_le t d)) by lia. simpl.
    rewrite py_int_str. simpl.
    unfold redis_call. simpl. rewrite Hout. simpl.
    eexists. split; [destruct (n + 1 >? limit self); reflexivity|].
    simpl. split; [done|]. split.
    + unfold counter_is. simpl. rewrite lookup_insert_eq.
      destruct (n + 1 =? 0) eqn:E1; [lia|].
      eexists. split; [done|]. lia.
    + intros k Hk. by rewrite lookup_insert_ne.
Qed.

Lemma serve_cons {A : Type} (t : Z) (p : prog A) (reqs : list (Z * prog A))
    (w : world) :
  serve ((t, p) :: reqs) w
    = let '(r, w1) := run p (at_time t w) in
      let '(rs, w2) := serve reqs w1 in (r :: rs, w2).
Proof. reflexivity. Qed.

Lemma serve_app {A : Type} (r1 r2 : list (Z * prog A)) (w : world) :
  serve (r1 ++ r2) w
    = let '(a, w1) := serve r1 w in
      let '(b, w2) := serve r2 w1 in (a ++ b, w2).
Proof.
  revert w. induction r1 as [|[t p] r1 IH]; intros w; simpl.
  - by destruct (serve r2 w).
  - destruct (run p (at_time t w)) as [r w1]. rewrite IH.
    destruct (serve r1 w1) as [a w2]. by destruct (serve r2 w2).
Qed.

Lemma serve_bucket (self : RateLimiterMiddleware) (host : string)
    (ok : Response) (ws : Z) (ts : list Z) :
  1 ≤ window self → Forall (in_bucket (window self) ws) ts →
  ∀ (w : world) (n : Z),
    outages w = [] → 0 ≤ n → counter_is self host ws n w →
    ∃ w',
      serve (requests self host ok ts) w
        = (verdicts self ok n (length ts), w') ∧
      outages w' = [] ∧
      counter_is self host ws (n + Z.of_nat (length ts)) w' ∧
      (∀ k, k ≠ window_key host ws → redis w' !! k = redis w !! k).
Proof.
  intros HW Hts. induction Hts as [|t ts Ht Hts IH]; intros w n Hout Hn Hc.
  - exists w. simpl. rewrite Z.add_0_r. done.
  - destruct (dispatch_in_bucket self host ok w ws t n HW Ht Hout Hn Hc)
      as (w1 & Hrun & Hout1 & Hc1 & Hfr1).
    destruct (IH w1 (n + 1) Hout1 ltac:(lia) Hc1)
      as (w2 & Hserve & Hout2 & Hc2 & Hfr2).
    exists w2.
    change (requests self host ok (t :: ts))
      with ((t, dispatch self host (Ret ok)) :: requests self host ok ts).
    rewrite serve_cons, Hrun, Hserve.
    split; [done|]. split; [done|]. split.
    + replace (n + Z.of_nat (length (t :: ts)))
        with (n + 1 + Z.of_nat (length ts)) by (simpl; lia). done.
    + intros k Hk. rewrite Hfr2, Hfr1; done.
Qed.

(** C2. With [window = 60] and [limit = 5], six requests of one client in
    one clock-aligned bucket, starting from no counter: the first five are
    handed to downstream handling and the sixth is answered 429.  And for
    any limit of at least one, after any requests in a bucket, a request
    one window length after the last of them is handed on. *)
Theorem rate_limit_window (host : string) (ok : Response) :
  (∀ (w : world) (ws t1 t2 t3 t4 t5 t6 : Z),
     outages w = [] →
     redis w !! window_key host ws = None →
     Forall (in_bucket 60 ws) [t1; t2; t3; t4; t5; t6] →
     (serve (requests {| limit := 5; window := 60 |} host ok
               [t1; t2; t3; t4; t5; t6]) w).1
       = [Done ok; Done ok; Done ok; Done ok; Done ok;
          Done too_many_requests]) ∧
  (∀ (self : RateLimiterMiddleware) (w : world) (ws t : Z) (ts : list Z),
     1 ≤ limit self → 1 ≤ window self →
     outages w = [] →
     (∀ b, redis w !! window_key host b = None) →
     Forall (in_bucket (window self) ws) (ts ++ [t]) →
     last (serve (requests self host ok
                    (ts ++ [t; t + 1000 * window self])) w).1
       = Some (Done ok)).
Proof.
  split.
  - intros w ws t1 t2 t3 t4 t5 t6 Hout Hnone Hts.
    destruct (serve_bucket {| limit := 5; window := 60 |} host ok ws _
                ltac:(simpl; lia) Hts w 0 Hout ltac:(lia) Hnone)
      as (w' & -> & _). reflexivity.
  - intros self w ws t ts Hlim HW Hout Hnone Hts.
    replace (ts ++ [t; t + 1000 * window self])
      with ((ts ++ [t]) ++ [t + 1000 * window self])
      by (by rewrite <- app_assoc).
    unfold requests. rewrite fmap_app, serve_app.
    destruct (serve_bucket self host ok ws _ HW Hts w 0 Hout ltac:(lia)
                (Hnone ws)) as (w1 & Hserve & Hout1 & _ & Hfr).
    unfold requests in Hserve. rewrite Hserve.
    assert (in_bucket (window self) ws t) as (Hws0 & Hal & Ht).
    { apply Forall_app in Hts as [_ Ht]. by inversion Ht. }
    assert (in_bucket (window self) (ws + window self)
              (t + 1000 * window self)) as Hb.
    { split; [lia|]. split; [|lia].
      rewrite <- (Z.mul_1_l (window self)) at 1.
      by rewrite Z_mod_plus_full. }
    assert (counter_is self host (ws + window self) 0 w1) as Hc.
    { unfold counter_is. simpl. rewrite Hfr; [done|].
      intros Heq%window_key_inj. lia. }
    destruct (dispatch_in_bucket self host ok w1 _ _ 0 HW Hb Hout1
                ltac:(lia) Hc) as (w2 & Hrun & _).
    change ((λ t0, (t0, dispatch self host (Ret ok)))
              <$> [t + 1000 * window self])
      with [(t + 1000 * window self, dispatch self host (Ret ok))].
    rewrite serve_cons, Hrun. simpl. rewrite last_snoc.
    destruct (0 + 1 >? limit self) eqn:E; [lia|done].
Qed.

(** C4, as the code has it.  [dispatch] has no handler around its Redis
    calls.  When its [get] fails, or its [get] is answered and its [set]
    fails, the error leaves [dispatch] as it is: the request is not handed
    to downstream handling, and it is not answered 429 either. *)
Theorem dispatch_store_failure_propagates (self : RateLimiterMiddleware)
    (host : string) (call_next : prog Response) (w : world)
    (o : list bool) :
  window self ≠ 0 →
  (outages w = true :: o →
     run (dispatch self host call_next) w
       = (Raised RedisError,
          with_outages o (sent (GET (key_at self host (clock w))) w))) ∧
  (outages w = false :: true :: o →
   readable (store_get (key_at self host (clock w)) w) →
     ∃ v,
       run (dispatch self host call_next) w
         = (Raised RedisError,
            with_outages o
              (sent (SET (key_at self host (clock w)) v (window self))
                 (with_outages (true :: o)
                    (sent (GET (key_at self host (clock w))) w))))).
Proof.
  intros HW. unfold key_at, dispatch, py_mod, call.
  destruct (window self =? 0) eqn:E; [lia|]. simpl.
  set (key := window_key _ _). split.
  - intros Hout. unfold redis_call. simpl. by rewrite Hout.
  - intros Hout Hread. unfold redis_call at 1. simpl. rewrite Hout.
    unfold store_get in *. simpl in *.
    destruct (redis w !! key ≫= live (clock w)) as [[s|rows]|]; simpl in *;
      [|done|].
    + destruct Hread as [n ->]. simpl. unfold redis_call. simpl. eauto.
    + unfold redis_call. simpl. eauto.
Qed.

(** ** Commands sent to the store *)


(** ** What a run can and cannot change *)

(** No command brings an outage about. *)
Lemma exec_healthy {X : Type} (c : cmd X) (w : world) :
  outages w = [] → outages (exec ilike bcrypt c w).2 = [].
Proof.
  intros Hout.
  destruct c; simpl; try done; unfold redis_call; simpl; by rewrite Hout.
Qed.

Lemma run_healthy {A : Type} (p : prog A) (w : world) :
  outages w = [] → outages (run p w).2 = [].
Proof.
  revert w. induction p as [a|e|X c k IH]; intros w Hout; simpl; try done.
  pose proof (exec_healthy c w Hout) as Hc.
  destruct (exec ilike bcrypt c w) as [[x|e] w']; simpl in *; auto.
Qed.

Lemma quiet_bind (K : string → Prop) {A B : Type} (p : prog A)
    (f : A → prog B) :
  quiet_on K p → (∀ a, quiet_on K (f a)) → quiet_on K (bind p f).
Proof.
  intros Hp Hf. induction Hp as [a|e|X c k Hc Hk IH]; simpl.
  - apply Hf.
  - constructor.
  - constructor; [done|]. intros x. apply IH.
Qed.

Lemma exec_quiet (K : string → Prop) {X : Type} (c : cmd X) (w : world)
    (key : string) :
  writes_outside K c → K key →
  redis (exec ilike bcrypt c w).2 !! key = redis w !! key.
Proof.
  intros Hc Hkey.
  destruct c; simpl in *; try done; unfold redis_call; simpl;
    destruct (outages w) as [|[] o]; simpl; try done.
  - apply lookup_insert_ne. by intros ->.
  - apply lookup_insert_ne. by intros ->.
  - apply lookup_delete_ne. by intros ->.
  - apply lookup_delete_ne. by intros ->.
Qed.

(** A program that writes outside [K] leaves every key of [K] as it was,
    whether or not the store answers. *)
Lemma run_quiet (K : string → Prop) {A : Type} (p : prog A) (w : world)
    (key : string) :
  quiet_on K p → K key → redis (run p w).2 !! key = redis w !! key.
Proof.
  intros Hp Hkey. revert w.
  induction Hp as [a|e|X c k Hc Hk IH]; intros w; simpl; try done.
  pose proof (exec_quiet K c w key Hc Hkey) as Hex.
  destruct (exec ilike bcrypt c w) as [[x|e] w']; simpl in *; [|done].
  by rewrite IH.
Qed.

(** ** What one owner sees *)

Lemma same_view_refl (B : Z) (w : world) : same_view B w w.
Proof. done. Qed.

Lemma same_view_sym (B : Z) (w1 w2 : world) :
  same_view B w1 w2 → same_view B w2 w1.
Proof. intros [H1 H2]. split; [|done]. intros key Hk. by rewrite H1. Qed.

Lemma same_view_trans (B : Z) (w1 w2 w3 : world) :
  same_view B w1 w2 → same_view B w2 w3 → same_view B w1 w3.
Proof.
  intros [H1 H2] [H3 H4]. split; [|congruence].
  intros key Hk. by rewrite H1, H3.
Qed.

(** The handlers of a user other than [B] write outside the keys of [B]. *)
Lemma handle_quiet (B : Z) (r : request) :
  sender r ≠ B → quiet_on (keys_of B) (handle r).
Proof.
  intros Hne.
  assert (∀ u, ¬ keys_of B (owner_pattern u)) as Hpat.
  { intros u (s & l & q & H). by apply owner_pattern_not_key in H. }
  assert (∀ s l q, ¬ keys_of B (cache_key (sender r) s l q)) as Hkey.
  { intros s l q (s' & l' & q' & H). by apply cache_key_owner in H. }
  destruct r as [u note|u skip lim search|u id|u id upd|u id]; simpl in *.
  - repeat (constructor; try done; intros).
  - unfold get_notes, call, json_loads. simpl.
    constructor; [done|]. intros cached.
    destruct (truthy cached).
    + destruct cached as [[]|]; simpl; repeat constructor.
    + simpl. constructor; [done|]. intros rows. simpl.
      constructor; [apply Hkey|]. intros _. simpl. constructor.
  - unfold get_note, call. simpl. constructor; [done|]. intros [n|]; simpl;
      [|constructor]. case_bool_decide; simpl; constructor.
  - unfold update_note, call. simpl. constructor; [apply Hpat|]. intros _.
    simpl. constructor; [done|]. intros [n|]; simpl; [|constructor].
    case_bool_decide; simpl; [constructor|].
    constructor; [done|]. intros n'. simpl.
    constructor; [apply Hpat|]. intros _. simpl. constructor.
  - unfold delete_note, call. simpl. constructor; [done|].
    intros [n|]; simpl; [|constructor].
    case_bool_decide; simpl; [constructor|].
    constructor; [done|]. intros _. simpl.
    constructor; [apply Hpat|]. intros _. simpl. constructor.
Qed.

(** No handler but the listing writes under a listing key, of anyone. *)
Lemma non_listing_quiet (B : Z) (r : request) :
  is_listing r = false → quiet_on (keys_of B) (handle r).
Proof.
  intros Hl.
  assert (∀ u, ¬ keys_of B (owner_pattern u)) as Hpat.
  { intros u (s & l & q & H). by apply owner_pattern_not_key in H. }
  destruct r as [u note|u skip lim search|u id|u id upd|u id]; try done;
    simpl.
  - repeat (constructor; try done; intros).
  - unfold get_note, call. simpl. constructor; [done|]. intros [n|]; simpl;
      [|constructor]. case_bool_decide; simpl; constructor.
  - unfold update_note, call. simpl. constructor; [apply Hpat|]. intros _.
    simpl. constructor; [done|]. intros [n|]; simpl; [|constructor].
    case_bool_decide; simpl; [constructor|].
    constructor; [done|]. intros n'. simpl.
    constructor; [apply Hpat|]. intros _. simpl. constructor.
  - unfold delete_note, call. simpl. constructor; [done|].
    intros [n|]; simpl; [|constructor].
    case_bool_decide; simpl; [constructor|].
    constructor; [done|]. intros _. simpl.
    constructor; [apply Hpat|]. intros _. simpl. constructor.
Qed.

(** ** The note table under its primary key *)

Lemma next_id_fresh (l : list Z) : next_id l ∉ l.
Proof.
  assert (∀ x, x ∈ l → x ≤ foldr Z.max 0 l) as Hmax.
  { induction l as [|y l IH]; intros x Hx; [by inversion Hx|].
    simpl. apply elem_of_cons in Hx as [->|Hx]; [lia|].
    specialize (IH x Hx). lia. }
  intros Hin. apply Hmax in Hin. unfold next_id in Hin. lia.
Qed.

Lemma ids_replace (n : Note) (rows : list Note) :
  ids ((λ r, if note_id r =? note_id n then n else r) <$> rows) = ids rows.
Proof.
  unfold ids. induction rows as [|r rows IH]; [done|].
  rewrite !fmap_cons, IH. f_equal.
  destruct (note_id r =? note_id n) eqn:E; [lia|done].
Qed.

Lemma ids_remove_NoDup (P : Note → bool) (rows : list Note) :
  NoDup (ids rows) → NoDup (ids (List.filter P rows)).
Proof.
  unfold ids. induction rows as [|r rows IH]; [done|]. simpl.
  intros [Hr Hrows]%NoDup_cons. destruct (P r); simpl; [|auto].
  apply NoDup_cons. split; [|auto].
  intros (r' & Hid & Hin)%list_elem_of_fmap. apply Hr.
  apply list_elem_of_fmap. exists r'. split; [done|].
  apply list_elem_of_In, filter_In in Hin as [Hin _].
  by apply list_elem_of_In.
Qed.

(** Under a primary key, the row [db.get] finds is the only row of that
    id. *)
Lemma find_unique (id : Z) (n r : Note) (rows : list Note) :
  NoDup (ids rows) →
  List.find (λ n, note_id n =? id) rows = Some n →
  r ∈ rows → note_id r = id → r = n.
Proof.
  unfold ids. induction rows as [|x rows IH]; [done|]. simpl.
  intros [Hx Hrows]%NoDup_cons Hfind Hin Hid.
  destruct (note_id x =? id) eqn:E.
  - injection Hfind as ->. apply elem_of_cons in Hin as [->|Hin]; [done|].
    destruct Hx. apply list_elem_of_fmap. exists r. split; [lia|done].
  - apply elem_of_cons in Hin as [->|Hin]; [lia|]. by apply IH.
Qed.

Lemma rows_of_app (B : Z) (rows : list Note) (row : Note) :
  owner_id row ≠ B → rows_of B (rows ++ [row]) = rows_of B rows.
Proof.
  intros Hne. unfold rows_of. rewrite List.filter_app. simpl.
  destruct (owner_id row =? B) eqn:E; [lia|]. by rewrite app_nil_r.
Qed.

Lemma filter_cons_eq {A : Type} (f : A → bool) (x : A) (l : list A) :
  List.filter f (x :: l)
    = if f x then x :: List.filter f l else List.filter f l.
Proof. reflexivity. Qed.

Lemma filter_sublist {A : Type} (f : A → bool) (l : list A) :
  List.filter f l `sublist_of` l.
Proof.
  induction l as [|x l IH]; [done|]. rewrite filter_cons_eq.
  destruct (f x); by constructor.
Qed.

(** What the record store selects for an owner is a part of that owner's
    rows, in their order. *)
Lemma select_notes_own (rows : list Note) (owner : Z)
    (like : option string) (skip lim : Z) :
  select_notes ilike rows owner like skip lim `sublist_of` rows_of owner rows.
Proof.
  unfold select_notes, rows_of.
  etrans; [apply sublist_take|]. etrans; [apply sublist_drop|].
  destruct like; [apply filter_sublist|done].
Qed.

Lemma rows_of_replace (B : Z) (n : Note) (rows : list Note) :
  owner_id n ≠ B →
  (∀ r, r ∈ rows → note_id r = note_id n → owner_id r ≠ B) →
  rows_of B ((λ r, if note_id r =? note_id n then n else r) <$> rows)
    = rows_of B rows.
Proof.
  intros Hn. unfold rows_of. induction rows as [|r rows IH]; [done|].
  intros Hrows. rewrite fmap_cons, !filter_cons_eq.
  rewrite IH by (intros; apply Hrows; set_solver).
  destruct (note_id r =? note_id n) eqn:E; [|done].
  assert (owner_id r ≠ B) by (apply Hrows; [set_solver|lia]).
  destruct (owner_id n =? B) eqn:E1; [lia|].
  destruct (owner_id r =? B) eqn:E2; [lia|done].
Qed.

Lemma rows_of_remove (B : Z) (n : Note) (rows : list Note) :
  (∀ r, r ∈ rows → note_id r = note_id n → owner_id r ≠ B) →
  rows_of B (List.filter (λ r, negb (note_id r =? note_id n)) rows)
    = rows_of B rows.
Proof.
  unfold rows_of. induction rows as [|r rows IH]; [done|].
  intros Hrows. rewrite !filter_cons_eq.
  destruct (note_id r =? note_id n) eqn:E; simpl negb; cbv iota;
    rewrite ?filter_cons_eq, IH by (intros; apply Hrows; set_solver);
    [|done].
  assert (owner_id r ≠ B) by (apply Hrows; [set_solver|lia]).
  destruct (owner_id r =? B) eqn:E2; [lia|done].
Qed.

(** Every command keeps the primary key. *)
Lemma exec_NoDup {X : Type} (c : cmd X) (w : world) :
  NoDup (ids (notes w)) → NoDup (ids (notes (exec ilike bcrypt c w).2)).
Proof.
  intros Hnd. destruct c; simpl; try done.
  - by destruct (redis_call_tables (GET key) (λ w, (store_get key w, w)) w)
      as [-> _].
  - by destruct (redis_call_tables (SET key v ex)
                   (λ w, (tt, store_set key v ex w)) w) as [-> _].
  - by destruct (redis_call_tables (DEL key) (λ w, (tt, store_del key w)) w)
      as [-> _].
  - unfold ids. rewrite fmap_app. simpl. apply NoDup_app.
    split; [done|]. split; [|apply NoDup_singleton].
    intros x Hx ->%list_elem_of_singleton. by apply next_id_fresh in Hx.
  - by rewrite ids_replace.
  - by apply ids_remove_NoDup.
Qed.

Lemma run_NoDup {A : Type} (p : prog A) (w : world) :
  NoDup (ids (notes w)) → NoDup (ids (notes (run p w).2)).
Proof.
  revert w. induction p as [a|e|X c k IH]; intros w Hnd; simpl; try done.
  pose proof (exec_NoDup c w Hnd) as Hc.
  destruct (exec ilike bcrypt c w) as [[x|e] w']; simpl in *; auto.
Qed.

Tactic Notation "skip_redis" "as" ident(x) ident(w1) ident(H) :=
  match goal with
  | |- context [redis_call ?c ?f ?w] =>
      pose proof (redis_call_tables c f w ltac:(intros; done)) as H;
      destruct (redis_call c f w) as [[x|?] w1]; simpl in H |- *;
      destruct H as [H _]
  end.

(** A request of a user other than [B] leaves the rows of [B] alone. *)
Lemma handle_rows (B : Z) (r : request) (w : world) :
  sender r ≠ B → NoDup (ids (notes w)) →
  rows_of B (notes (run (handle r) w).2) = rows_of B (notes w).
Proof.
  intros Hne Hnd.
  destruct r as [u note|u skip lim search|u id|u id upd|u id]; simpl in *.
  - by apply rows_of_app.
  - unfold get_notes, call, json_loads. simpl.
    skip_redis as cached w1 H1; [|congruence].
    destruct (truthy cached).
    + destruct cached as [[]|]; simpl; congruence.
    + simpl. skip_redis as x w2 H2; congruence.
  - unfold get_note, call. simpl.
    destruct (List.find _ (notes w)) as [n|]; simpl; [|done].
    case_bool_decide; done.
  - unfold update_note, call. simpl.
    skip_redis as x w1 H1; [|congruence].
    rewrite H1.
    destruct (List.find _ (notes w)) as [n|] eqn:Hn; simpl; [|congruence].
    case_bool_decide as Hown; simpl; [congruence|].
    assert (rows_of B ((λ r, if note_id r =? note_id n
                             then apply_update upd n else r) <$> notes w)
            = rows_of B (notes w)) as Hrep.
    { apply (rows_of_replace B (apply_update upd n));
        [simpl; congruence|].
      intros r Hr Hid. simpl in Hid.
      assert (r = n) as ->; [|congruence].
      eapply find_unique; [exact Hnd|exact Hn|done|].
      apply List.find_some in Hn as [_ Hn%Z.eqb_eq]. congruence. }
    skip_redis as y w2 H2; simpl in H2; rewrite H2, H1; exact Hrep.
  - unfold delete_note, call. simpl.
    destruct (List.find _ (notes w)) as [n|] eqn:Hn; simpl; [|done].
    case_bool_decide as Hown; simpl; [done|].
    assert (rows_of B (List.filter (λ r, negb (note_id r =? note_id n))
                         (notes w)) = rows_of B (notes w)) as Hrem.
    { apply rows_of_remove. intros r Hr Hid.
      assert (r = n) as ->; [|congruence].
      eapply find_unique; [exact Hnd|exact Hn|done|].
      apply List.find_some in Hn as [_ Hn%Z.eqb_eq]. congruence. }
    skip_redis as y w2 H2; simpl in H2; rewrite H2; exact Hrem.
Qed.

(** A request of a user other than [B] leaves the view of [B] as it was. *)
Lemma handle_same_view (B : Z) (r : request) (t : Z) (w : world) :
  sender r ≠ B → NoDup (ids (notes w)) →
  same_view B (run (handle r) (at_time t w)).2 w.
Proof.
  intros Hne Hnd. split.
  - intros key Hkey.
    by rewrite (run_quiet (keys_of B) _ _ key (handle_quiet B r Hne) Hkey).
  - by rewrite handle_rows.
Qed.

(** A listing read of [B] gives the same reply in two worlds that look
    the same to [B], and leaves them looking the same. *)
Lemma listing_same_view (B : Z) (u : User) (skip lim : Z)
    (search : option string) (t : Z) (w1 w2 : world) :
  user_id u = B → outages w1 = [] → outages w2 = [] → same_view B w1 w2 →
  (run (handle (ListNotes u skip lim search)) (at_time t w1)).1
    = (run (handle (ListNotes u skip lim search)) (at_time t w2)).1 ∧
  same_view B (run (handle (ListNotes u skip lim search)) (at_time t w1)).2
              (run (handle (ListNotes u skip lim search)) (at_time t w2)).2.
Proof.
  intros Hu Hout1 Hout2 [Hkeys Hrows].
  unfold handle, get_notes, call, json_loads. simpl.
  set (key := cache_key (user_id u) skip lim search).
  assert (keys_of B key) as Hkey by (subst B; by eexists _, _, _).
  unfold redis_call. simpl. rewrite Hout1, Hout2.
  unfold store_get. simpl. rewrite (Hkeys key Hkey).
  destruct (truthy _) eqn:Htr.
  - destruct (redis w2 !! key ≫= live t) as [[s|rows]|]; simpl;
      (split; [done|]); split; simpl; auto.
  - simpl. unfold select_notes.
    change (List.filter (λ n, owner_id n =? user_id u) (notes w1))
      with (rows_of (user_id u) (notes w1)).
    change (List.filter (λ n, owner_id n =? user_id u) (notes w2))
      with (rows_of (user_id u) (notes w2)).
    rewrite Hu, Hrows.
    unfold redis_call. simpl. rewrite Hout1, Hout2. simpl.
    split; [done|]. split; simpl; [|done].
    intros key' Hkey'. rewrite !lookup_insert. case_decide; [done|auto].
Qed.

(** Under a primary key, looking a note of [B] up in the table and
    among the rows of [B] is the same. *)
Lemma find_rows_of (B id : Z) (n : Note) (rows : list Note) :
  NoDup (ids rows) → owner_id n = B →
  List.find (λ n, note_id n =? id) rows = Some n ↔
  List.find (λ n, note_id n =? id) (rows_of B rows) = Some n.
Proof.
  intros Hnd Hown. unfold ids, rows_of in *.
  induction rows as [|x rows IH]; [done|].
  apply NoDup_cons in Hnd as [Hx Hnd]. specialize (IH Hnd).
  rewrite filter_cons_eq. simpl.
  destruct (note_id x =? id) eqn:Eid.
  - destruct (owner_id x =? B) eqn:Eown; simpl; [by rewrite Eid|].
    split; [intros [= <-]; lia|].
    intros [Hin Hid]%List.find_some. destruct Hx.
    apply filter_In in Hin as [Hin _].
    apply list_elem_of_fmap. exists n.
    split; [lia|by apply list_elem_of_In].
  - destruct (owner_id x =? B); simpl; [by rewrite Eid|done].
Qed.

Lemma find_rows_of_owner (B id : Z) (n : Note) (rows : list Note) :
  List.find (λ n, note_id n =? id) (rows_of B rows) = Some n →
  owner_id n = B.
Proof.
  intros [Hin _]%List.find_some. apply filter_In in Hin as [_ Hin]. lia.
Qed.

Lemma rows_of_fmap (B : Z) (g : Note → Note) (rows : list Note) :
  (∀ r, r ∈ rows → (owner_id (g r) =? B) = (owner_id r =? B)) →
  rows_of B (g <$> rows) = g <$> rows_of B rows.
Proof.
  unfold rows_of. induction rows as [|r rows IH]; [done|]. intros Hg.
  rewrite fmap_cons, !filter_cons_eq, (Hg r) by (apply elem_of_cons; auto).
  rewrite IH by (intros; apply Hg; apply elem_of_cons; auto).
  by destruct (owner_id r =? B).
Qed.

Lemma rows_of_filter (B : Z) (P : Note → bool) (rows : list Note) :
  rows_of B (List.filter P rows) = List.filter P (rows_of B rows).
Proof.
  unfold rows_of. induction rows as [|r rows IH]; [done|].
  rewrite !filter_cons_eq.
  destruct (P r) eqn:EP, (owner_id r =? B) eqn:EB;
    rewrite ?filter_cons_eq, ?EP, ?EB, IH; done.
Qed.

(** What a note looked up by [B] for an update or a delete does to the
    rows of [B] depends on the rows of [B] only. *)
Lemma rows_of_own_target (B id : Z) (act : Note → list Note → list Note)
    (rows : list Note) :
  NoDup (ids rows) →
  (∀ n, List.find (λ n, note_id n =? id) rows = Some n → owner_id n = B →
        rows_of B (act n rows) = act n (rows_of B rows)) →
  rows_of B
    match List.find (λ n, note_id n =? id) rows with
    | Some n => if bool_decide (owner_id n ≠ B) then rows else act n rows
    | None => rows
    end
  = match List.find (λ n, note_id n =? id) (rows_of B rows) with
    | Some n => act n (rows_of B rows)
    | None => rows_of B rows
    end.
Proof.
  intros Hnd Hact.
  destruct (List.find _ rows) as [n|] eqn:Hn.
  - case_bool_decide as Hown.
    + destruct (List.find _ (rows_of B rows)) as [m|] eqn:Hm; [|done].
      pose proof (find_rows_of_owner _ _ _ _ Hm) as Hmown.
      apply (find_rows_of B id m rows Hnd Hmown) in Hm. congruence.
    + assert (owner_id n = B) as Hown' by (by destruct (decide (owner_id n = B))).
      rewrite (proj1 (find_rows_of B id n rows Hnd Hown') Hn). auto.
  - destruct (List.find _ (rows_of B rows)) as [m|] eqn:Hm; [|done].
    pose proof (find_rows_of_owner _ _ _ _ Hm) as Hmown.
    apply (find_rows_of B id m rows Hnd Hmown) in Hm. congruence.
Qed.

(** A request of [B] other than a create or a listing leaves two worlds
    that look the same to [B] looking the same. *)
Lemma own_request_same_view (B : Z) (r : request) (t : Z) (w1 w2 : world) :
  sender r = B → is_create r = false → is_listing r = false →
  outages w1 = [] → outages w2 = [] →
  NoDup (ids (notes w1)) → NoDup (ids (notes w2)) →
  same_view B w1 w2 →
  same_view B (run (handle r) (at_time t w1)).2
              (run (handle r) (at_time t w2)).2.
Proof.
  intros Hs Hc Hl Hout1 Hout2 Hnd1 Hnd2 [Hkeys Hrows]. split.
  { intros key Hkey.
    rewrite !(run_quiet (keys_of B) _ _ key (non_listing_quiet B r Hl) Hkey).
    by apply Hkeys. }
  destruct r as [u note|u skip lim search|u id|u id upd|u id]; try done;
    simpl in Hs.
  - assert (∀ w, notes (run (handle (GetNote u id)) (at_time t w)).2
                 = notes w) as Hget.
    { intros w. unfold handle, get_note, call. simpl.
      destruct (List.find _ (notes w)); simpl; [|done].
      by case_bool_decide. }
    by rewrite !Hget.
  - set (act := λ (n : Note) (rows : list Note),
          (λ r, if note_id r =? note_id (apply_update upd n)
                then apply_update upd n else r) <$> rows).
    assert (∀ w, outages w = [] →
      notes (run (handle (UpdateNote u id upd)) (at_time t w)).2
        = match List.find (λ n, note_id n =? id) (notes w) with
          | Some n => if bool_decide (owner_id n ≠ B) then notes w
                      else act n (notes w)
          | None => notes w
          end) as Hupd.
    { intros w Hout. unfold handle, update_note, call. simpl.
      unfold redis_call. simpl. rewrite Hout. simpl.
      destruct (List.find _ (notes w)); simpl; [|done]. rewrite Hs.
      case_bool_decide; simpl; [done|].
      unfold redis_call. simpl. by rewrite Hout. }
    assert (∀ rows, NoDup (ids rows) →
      ∀ n, List.find (λ n, note_id n =? id) rows = Some n → owner_id n = B →
           rows_of B (act n rows) = act n (rows_of B rows)) as Hact.
    { intros rows Hnd n Hn Hown. apply rows_of_fmap. intros r Hr. simpl.
      destruct (note_id r =? note_id n) eqn:E; [|done]. simpl.
      assert (r = n) as ->; [|done].
      eapply find_unique; [exact Hnd|exact Hn|done|].
      apply List.find_some in Hn as [_ Hn%Z.eqb_eq]. lia. }
    rewrite !Hupd by done.
    rewrite !rows_of_own_target by auto. by rewrite Hrows.
  - set (act := λ (n : Note) (rows : list Note),
          List.filter (λ r, negb (note_id r =? note_id n)) rows).
    assert (∀ w, outages w = [] →
      notes (run (handle (DeleteNote u id)) (at_time t w)).2
        = match List.find (λ n, note_id n =? id) (notes w) with
          | Some n => if bool_decide (owner_id n ≠ B) then notes w
                      else act n (notes w)
          | None => notes w
          end) as Hdel.
    { intros w Hout. unfold handle, delete_note, call. simpl.
      destruct (List.find _ (notes w)); simpl; [|done]. rewrite Hs.
      case_bool_decide; simpl; [done|].
      unfold redis_call. simpl. by rewrite Hout. }
    rewrite !Hdel by done.
    rewrite !rows_of_own_target
      by (try done; intros; apply rows_of_filter).
    by rewrite Hrows.
Qed.

Lemma replies_to_cons (B : Z) (x : Z * request) (tr : list (Z * request))
    (r : result reply) (rs : list (result reply)) :
  replies_to B (x :: tr) (r :: rs)
    = if listing_by B x.2 then r :: replies_to B tr rs
      else replies_to B tr rs.
Proof.
  unfold replies_to. simpl zip. rewrite filter_cons_eq. simpl.
  by destruct (listing_by B x.2).
Qed.

Lemma two_runs (A B : Z) (tr : list (Z * request)) :
  A ≠ B → creates_none B tr →
  ∀ w1 w2,
    outages w1 = [] → outages w2 = [] →
    NoDup (ids (notes w1)) → NoDup (ids (notes w2)) →
    same_view B w1 w2 →
    replies_to B tr (serve (handlers tr) w1).1
      = replies_to B (without_mutations A tr)
          (serve (handlers (without_mutations A tr)) w2).1 ∧
    same_view B (serve (handlers tr) w1).2
                (serve (handlers (without_mutations A tr)) w2).2.
Proof.
  intros HAB Htr. induction Htr as [|[t r] tr Hr Htr IH];
    intros w1 w2 Hout1 Hout2 Hnd1 Hnd2 Hview; [done|].
  simpl in Hr. unfold without_mutations. rewrite filter_cons_eq.
  fold (without_mutations A tr). simpl negb.
  change (handlers ((t, r) :: tr)) with ((t, handle r) :: handlers tr).
  rewrite serve_cons.
  destruct (run (handle r) (at_time t w1)) as [r1 w1'] eqn:E1.
  assert (outages w1' = [] ∧ NoDup (ids (notes w1'))) as [Hout1' Hnd1'].
  { replace w1' with (run (handle r) (at_time t w1)).2 by by rewrite E1.
    split; [by apply run_healthy|by apply run_NoDup]. }
  destruct (mutation_by A r) eqn:Hmut; simpl negb; cbv iota.
  - (* a mutation of A: present in the first run only *)
    assert (sender r ≠ B ∧ listing_by B r = false) as [Hne Hlist].
    { unfold mutation_by, listing_by in *.
      destruct r; simpl in *; try done; split; try done; lia. }
    assert (same_view B w1' w2) as Hview'.
    { eapply same_view_trans; [|exact Hview].
      replace w1' with (run (handle r) (at_time t w1)).2 by by rewrite E1.
      by apply handle_same_view. }
    destruct (IH w1' w2 Hout1' Hout2 Hnd1' Hnd2 Hview') as [Hrs Hv].
    destruct (serve (handlers tr) w1') as [rs1 w1'']. simpl in *.
    rewrite replies_to_cons. simpl. by rewrite Hlist.
  - change (handlers ((t, r) :: without_mutations A tr))
      with ((t, handle r) :: handlers (without_mutations A tr)).
    rewrite serve_cons.
    destruct (run (handle r) (at_time t w2)) as [r2 w2'] eqn:E2.
    assert (outages w2' = [] ∧ NoDup (ids (notes w2'))) as [Hout2' Hnd2'].
    { replace w2' with (run (handle r) (at_time t w2)).2 by by rewrite E2.
      split; [by apply run_healthy|by apply run_NoDup]. }
    assert (same_view B w1' w2' ∧ (listing_by B r = true → r1 = r2))
      as [Hview' Hsame].
    { destruct (listing_by B r) eqn:Hlist.
      - unfold listing_by in Hlist.
        destruct r as [|u skip lim search| | |]; simpl in Hlist; try done.
        destruct (listing_same_view B u skip lim search t w1 w2
                    ltac:(lia) Hout1 Hout2 Hview) as [Hr12 Hv12].
        rewrite E1, E2 in Hr12, Hv12. simpl in *. done.
      - split; [|done].
        destruct (decide (sender r = B)) as [Hs|Hne].
        { replace w1' with (run (handle r) (at_time t w1)).2
            by by rewrite E1.
          replace w2' with (run (handle r) (at_time t w2)).2
            by by rewrite E2.
          apply own_request_same_view; try done.
          - simpl in Hr. destruct (is_create r); [lia|done].
          - unfold listing_by in Hlist.
            destruct (is_listing r); [simpl in Hlist; lia|done]. }
        eapply same_view_trans;
          [|eapply same_view_trans; [exact Hview|]].
        + replace w1' with (run (handle r) (at_time t w1)).2
            by by rewrite E1.
          by apply handle_same_view.
        + apply same_view_sym.
          replace w2' with (run (handle r) (at_time t w2)).2
            by by rewrite E2.
          by apply handle_same_view. }
    destruct (IH w1' w2' Hout1' Hout2' Hnd1' Hnd2' Hview') as [Hrs Hv].
    destruct (serve (handlers tr) w1') as [rs1 w1''].
    destruct (serve (handlers (without_mutations A tr)) w2')
      as [rs2 w2'']. simpl in *.
    rewrite !replies_to_cons. simpl.
    destruct (listing_by B r); [|done]. by rewrite Hsame, Hrs.
Qed.

(** A listing reply is the entry under the reader's own key, or the
    reader's own rows read from the table. *)
Lemma get_notes_source (u : User) (skip lim : Z) (search : option string)
    (w w' : world) (rows : list Note) :
  run (get_notes u skip lim search) w = (Done rows, w') →
  store_get (cache_key (user_id u) skip lim search) w = Some (VJson rows) ∨
  ∃ like, rows = select_notes ilike (notes w) (user_id u) like skip lim.
Proof.
  unfold get_notes, call, json_loads. simpl.
  set (key := cache_key (user_id u) skip lim search).
  unfold redis_call at 1. simpl.
  destruct (outages w) as [|[] o]; simpl; [|done|].
  - change (store_get key (sent (GET key) w)) with (store_get key w).
    destruct (truthy (store_get key w)).
    + destruct (store_get key w) as [[s|cached]|]; simpl; try done.
      intros [= <- _]. by left.
    + simpl. unfold redis_call. simpl.
      destruct (outages w) as [|[] o']; simpl; try done;
        intros [= <- _]; right; eauto.
  - change (store_get key (with_outages o (sent (GET key) w)))
      with (store_get key w).
    destruct (truthy (store_get key w)).
    + destruct (store_get key w) as [[s|cached]|]; simpl; try done.
      intros [= <- _]. by left.
    + simpl. unfold redis_call. simpl.
      destruct o as [|[] o']; simpl; try done;
        intros [= <- _]; right; eauto.
Qed.

(** C7, as the code has it.  For distinct owners [A] and [B]: a request
    of [A], a mutation or any other, leaves every entry under a listing key
    of [B] as it was, whether or not the store answers; the listing keys
    of [A] and of [B] are disjoint, and a listing reply to [B] is the entry
    under its own key or a part of its own rows (the selection the record
    store makes of them, for a skip and a limit that are numbers of rows);
    and a run in which [B] creates no
    note and the same run without the mutations of [A] give [B] the same
    listing replies and leave the same entries under the keys of [B].
    ([B] may list, read, update and delete, and everyone else may do
    anything; the store answers and note ids are a primary key.  A note
    [B] creates takes its id from the one sequence all owners share, so
    its id differs between the two runs.) *)
Theorem no_cross_owner_cache_bleed (A B : Z) :
  A ≠ B →
  (∀ r w key, sender r = A → keys_of B key →
     redis (run (handle r) w).2 !! key = redis w !! key) ∧
  (∀ key, keys_of A key → ¬ keys_of B key) ∧
  (∀ u skip lim search w w' rows, user_id u = B →
     run (get_notes u skip lim search) w = (Done rows, w') →
     store_get (cache_key B skip lim search) w = Some (VJson rows) ∨
     rows `sublist_of` rows_of B (notes w) ∧
     (row_count skip → row_count lim →
      ∃ like, rows = select_notes ilike (notes w) B like skip lim)) ∧
  (∀ tr w, outages w = [] → NoDup (ids (notes w)) → creates_none B tr →
     replies_to B tr (serve (handlers tr) w).1
       = replies_to B (without_mutations A tr)
           (serve (handlers (without_mutations A tr)) w).1 ∧
     ∀ key, keys_of B key →
       redis (serve (handlers tr) w).2 !! key
         = redis (serve (handlers (without_mutations A tr)) w).2 !! key).
Proof.
  intros HAB. split; [|split; [|split]].
  - intros r w key Hs Hkey. apply (run_quiet (keys_of B)); [|done].
    apply handle_quiet. congruence.
  - intros key (s & l & q & ->) (s' & l' & q' & H).
    by apply cache_key_owner in H.
  - intros u skip lim search w w' rows <- Hrun.
    apply get_notes_source in Hrun as [Hhit|[like ->]]; [by left|right].
    split; [apply select_notes_own|eauto].
  - intros tr w Hout Hnd Htr.
    destruct (two_runs A B tr HAB Htr w w Hout Hout Hnd Hnd
                (same_view_refl B w)) as [Hrs [Hkeys _]].
    split; [done|]. exact Hkeys.
Qed.

(** ** Invalidation *)

(** No mutation handler writes under a listing key, its owner's
    included: [create_note] sends nothing to the store, [update_note] and
    [delete_note] delete the key named by the pattern text. *)
Lemma mutation_quiet (owner : Z) (r : request) :
  is_mutation r = true → quiet_on (keys_of owner) (handle r).
Proof.
  intros Hmut.
  assert (∀ u, ¬ keys_of owner (owner_pattern u)) as Hpat.
  { intros u (s & l & q & H). by apply owner_pattern_not_key in H. }
  destruct r as [u note|u skip lim search|u id|u id upd|u id]; try done;
    simpl.
  - repeat (constructor; try done; intros).
  - unfold update_note, call. simpl. constructor; [apply Hpat|]. intros _.
    simpl. constructor; [done|]. intros [n|]; simpl; [|constructor].
    case_bool_decide; simpl; [constructor|].
    constructor; [done|]. intros n'. simpl.
    constructor; [apply Hpat|]. intros _. simpl. constructor.
  - unfold delete_note, call. simpl. constructor; [done|].
    intros [n|]; simpl; [|constructor].
    case_bool_decide; simpl; [constructor|].
    constructor; [done|]. intros _. simpl.
    constructor; [apply Hpat|]. intros _. simpl. constructor.
Qed.

(** C1, on the code.  After a create, update or delete, every entry that
    was cached under a listing key — of the mutating owner as of anyone
    else — is still there, unchanged. *)
Theorem mutation_keeps_listing_entries (r : request) (w : world)
    (owner : Z) (key : string) :
  is_mutation r = true → keys_of owner key →
  redis (run (handle r) w).2 !! key = redis w !! key.
Proof.
  intros Hmut Hkey. apply (run_quiet (keys_of owner)); [|done].
  by apply mutation_quiet.
Qed.

End Handlers.

(** * Worked examples *)

Local Abbreviation run0 := (run any_title tagged_hash).
Local Abbreviation serve0 := (serve any_title tagged_hash).
Local Abbreviation interleave0 := (interleave any_title tagged_hash).

(** *** A listing that outlives a create *)

(** The create succeeds, the entry cached for Alice before it is still
    cached after it, and her next listing is that entry: empty, although
    the table now holds her note. *)
Lemma stale_listing_after_create :
  (is_mutation (CreateNote alice first_note) = true ∧
   keys_of 1 "notes:1:0:10:None") ∧
  (run0 (handle (CreateNote alice first_note)) world_listed).1
    = Done (OneNote {| note_id := 1; title := "t"; content := "c";
                       owner_id := 1 |}) ∧
  redis world_created !! "notes:1:0:10:None"
    = redis world_listed !! "notes:1:0:10:None" ∧
  store_get "notes:1:0:10:None" world_created = Some (VJson []) ∧
  (run0 (get_notes alice 0 10 None) world_created).1 = Done [] ∧
  notes world_created
    = [{| note_id := 1; title := "t"; content := "c"; owner_id := 1 |}].
Proof.
  assert (keys_of 1 "notes:1:0:10:None") as Hkey
    by (exists 0, 10, None; reflexivity).
  split; [split; [reflexivity|exact Hkey]|].
  split; [reflexivity|].
  split; [|split; [reflexivity|split; reflexivity]].
  exact (mutation_keeps_listing_entries any_title tagged_hash
           (CreateNote alice first_note) world_listed 1 "notes:1:0:10:None"
           eq_refl Hkey).
Defined.

(** *** The rate limiter *)

(** Six requests in the bucket that starts at second 1699999980, and one
    a window length after the last. *)
Lemma rate_limit_window_witness :
  (serve0 (requests five_per_minute "203.0.113.7" ok200
             [1700000000000; 1700000001000; 1700000002000; 1700000003000;
              1700000004000; 1700000005000]) world0).1
    = [Done ok200; Done ok200; Done ok200; Done ok200; Done ok200;
       Done too_many_requests] ∧
  last (serve0 (requests five_per_minute "203.0.113.7" ok200
                  ([1700000000000] ++
                   [1700000005000; 1700000005000 + 1000 * 60])) world0).1
    = Some (Done ok200).
Proof.
  assert (∀ t, 1699999980000 ≤ t < 1700000040000 →
               in_bucket 60 1699999980 t) as Hb.
  { intros t Ht. split; [lia|]. split; [reflexivity|lia]. }
  split.
  - apply (proj1 (rate_limit_window any_title tagged_hash "203.0.113.7"
                    ok200) world0 1699999980); [reflexivity|reflexivity|].
    repeat (apply List.Forall_cons; [apply Hb; lia|]). apply List.Forall_nil.
  - apply (proj2 (rate_limit_window any_title tagged_hash "203.0.113.7"
                    ok200) five_per_minute world0 1699999980 1700000005000
                    [1700000000000]);
      [simpl; lia|simpl; lia|reflexivity|intros b; reflexivity|].
    repeat (apply List.Forall_cons; [apply Hb; lia|]). apply List.Forall_nil.
Defined.

(** Redis refuses the limiter's [get]: the request is answered neither by
    downstream handling nor with 429; the error leaves [dispatch]. *)
Lemma dispatch_outage_not_429 :
  hd false (outages world_outage) = true ∧
  (run0 (dispatch five_per_minute "203.0.113.7" (Ret ok200)) world_outage).1
    = Raised RedisError ∧
  (run0 (dispatch five_per_minute "203.0.113.7" (Ret ok200)) world_outage).1
    ≠ Done too_many_requests.
Proof. split; [reflexivity|]. split; [reflexivity|discriminate]. Qed.

Lemma dispatch_store_failure_witness :
  run0 (dispatch five_per_minute "203.0.113.7" (Ret ok200)) world_outage
    = (Raised RedisError,
       with_outages []
         (sent (GET (key_at five_per_minute "203.0.113.7"
                       (clock world_outage))) world_outage)).
Proof.
  apply (proj1 (dispatch_store_failure_propagates any_title tagged_hash
                  five_per_minute "203.0.113.7" (Ret ok200) world_outage []
                  ltac:(simpl; lia))).
  reflexivity.
Defined.

(** *** Tokens *)



(** Presented exactly at its expiry, 1800 seconds after the epoch, the
    token is still accepted. *)
Lemma token_accepted_at_expiry :
  run0 (create_access_token SECRET_KEY {["sub" := PStr "alice"]}
          (Some (minutes ACCESS_TOKEN_EXPIRE_MINUTES))) world_login
    = (Done alice_token, world_login) ∧
  alice_token = jwt.Jws "HS256"
                  (<["exp" := PInt 1800]> {["sub" := PStr "alice"]})
                  (jwt.Hmac SECRET_KEY "HS256"
                     (<["exp" := PInt 1800]> {["sub" := PStr "alice"]})) ∧
  run0 (get_current_user SECRET_KEY alice_token) (at_time 1800000 world0)
    = (Done alice, at_time 1800000 world0) ∧
  run0 (get_current_user SECRET_KEY alice_token) (at_time 1800999 world0)
    = (Done alice, at_time 1800999 world0).
Proof. repeat split; reflexivity. Qed.

Lemma token_validity_window_witness :
  ∃ t e,
    run0 (create_access_token SECRET_KEY {["sub" := PStr "alice"]}
            (Some (minutes 30))) world_login = (Done t, world_login) ∧
    e = 1800 ∧
    run0 (get_current_user SECRET_KEY t) (at_time 1799000 world0)
      = (Done alice, at_time 1799000 world0) ∧
    run0 (get_current_user SECRET_KEY t) (at_time 1801000 world0)
      = (Raised credentials_exception, at_time 1801000 world0) ∧
    run0 (get_current_user "supersecretkey" t) (at_time 1799000 world0)
      = (Raised credentials_exception, at_time 1799000 world0).
Proof.
  destruct (token_validity_window any_title tagged_hash SECRET_KEY "alice"
              (Some (minutes 30)) world_login) as (t & e & Hissue & He & Hw).
  exists t, e. split; [exact Hissue|]. split; [exact He|].
  assert (e = 1800) as E by exact He.
  split; [|split].
  - apply (proj1 (Hw (at_time 1799000 world0))); [|reflexivity].
    rewrite E. vm_compute. discriminate.
  - apply (proj1 (proj2 (Hw (at_time 1801000 world0)))).
    rewrite E. vm_compute. reflexivity.
  - apply (proj2 (proj2 (Hw (at_time 1799000 world0)))). discriminate.
Defined.

(** *** Roles *)

Lemma require_role_strict_witness :
  run0 (require_role "admin" alice) world0
    = (Raised (forbidden "Operation not permitted"), world0) ∧
  run0 (require_role "user" bob) world0
    = (Raised (forbidden "Operation not permitted"), world0) ∧
  run0 (require_role "admin" bob) world0 = (Done bob, world0).
Proof.
  split; [|split].
  - apply (proj2 (proj2 (require_role_strict any_title tagged_hash "admin"
                           alice world0))). discriminate.
  - apply (proj1 (require_role_strict any_title tagged_hash "user" bob
                    world0)). discriminate.
  - apply (proj1 (proj2 (require_role_strict any_title tagged_hash "admin"
                           bob world0))). reflexivity.
Defined.

(** *** Two owners *)

Lemma no_cross_owner_cache_bleed_witness :
  replies_to 2 mixed_trace (serve0 (handlers mixed_trace) world_two_notes).1
    = replies_to 2 (without_mutations 1 mixed_trace)
        (serve0 (handlers (without_mutations 1 mixed_trace))
           world_two_notes).1 ∧
  redis (serve0 (handlers mixed_trace) world_two_notes).2
    !! "notes:2:0:10:None"
    = redis (serve0 (handlers (without_mutations 1 mixed_trace))
               world_two_notes).2 !! "notes:2:0:10:None".
Proof.
  assert ((1 : Z) ≠ 2) as Hne by discriminate.
  assert (creates_none 2 mixed_trace) as Htr
    by (repeat (apply List.Forall_cons; [reflexivity|]); apply List.Forall_nil).
  assert (NoDup (ids (notes world_two_notes))) as Hnd.
  { change (NoDup [1; 2]). apply NoDup_cons.
    split; [|apply NoDup_singleton].
    intros H%list_elem_of_singleton. discriminate. }
  destruct (proj2 (proj2 (proj2 (no_cross_owner_cache_bleed any_title
              tagged_hash 1 2 Hne))) mixed_trace world_two_notes eq_refl
              Hnd Htr) as [Hrs Hkeys].
  split; [exact Hrs|]. apply Hkeys. exists 0, 10, None. reflexivity.
Defined.

(** When Bob creates a note too, its id depends on whether Alice created
    hers before: with Alice's create Bob's listing shows his note under
    id 2, without it under id 1, and so does the entry cached for him. *)
Lemma own_create_ids_differ :
  ¬ creates_none 2 both_create ∧
  replies_to 2 both_create (serve0 (handlers both_create) world0).1
    = [Done (Listing [{| note_id := 2; title := "t"; content := "c";
                         owner_id := 2 |}])] ∧
  replies_to 2 (without_mutations 1 both_create)
    (serve0 (handlers (without_mutations 1 both_create)) world0).1
    = [Done (Listing [{| note_id := 1; title := "t"; content := "c";
                         owner_id := 2 |}])] ∧
  redis (serve0 (handlers both_create) world0).2 !! "notes:2:0:10:None"
    ≠ redis (serve0 (handlers (without_mutations 1 both_create)) world0).2
        !! "notes:2:0:10:None".
Proof.
  split; [|split; [|split]].
  - intros H. inversion H as [|? ? _ H']. inversion H' as [|? ? Hbob _].
    discriminate.
  - reflexivity.
  - reflexivity.
  - vm_compute. discriminate.
Qed.

(** *** Two requests at once *)



(** *** Someone else's note *)



(** *** Registration *)

Lemma register_role_user_example :
  run0 (register {| uc_username := "carol"; uc_password := "pw" |}) world0
    = (Done {| user_id := 3; username := "carol"; password := "$2b$pw";
               role := "user" |},
       with_users
         [alice; bob;
          {| user_id := 3; username := "carol"; password := "$2b$pw";
             role := "user" |}] world0).
Proof. reflexivity. Qed.

(** * Further properties *)

(** ** Texts, continued *)

Lemma free_of_app_sep (c : ascii) (p r : string) :
  ¬ free_of c (p +:+ String c r).
Proof.
  induction p as [|a p IH]; rewrite ?str_app_cons, ?str_app_nil_l; simpl;
    [intros [H _]; done|intros [_ H]; auto].
Qed.

(** Two texts that agree from their last separator on agree on both sides
    of it. *)
Lemma split_at_last_sep (c : ascii) (p1 p2 r1 r2 : string) :
  free_of c r1 → free_of c r2 →
  p1 +:+ String c r1 = p2 +:+ String c r2 → p1 = p2 ∧ r1 = r2.
Proof.
  intros H1 H2. revert p2.
  induction p1 as [|a p1 IH]; intros [|b p2];
    rewrite ?str_app_cons, ?str_app_nil_l.
  - intros [= ->]. done.
  - intros [= _ ->]. by apply free_of_app_sep in H1.
  - intros [= _ <-]. by apply free_of_app_sep in H2.
  - intros [= -> Hrest]. by destruct (IH _ Hrest) as [-> ->].
Qed.

(** A window key names its client and its window start. *)
Lemma window_key_inj2 (h1 h2 : string) (ws1 ws2 : Z) :
  window_key h1 ws1 = window_key h2 ws2 → h1 = h2 ∧ ws1 = ws2.
Proof.
  unfold window_key. intros H.
  apply split_at_last_sep in H as [Hh Hws]; [|by apply py_str_free..].
  apply (inj (String.app "rate:")) in Hh. apply py_str_inj in Hws. done.
Qed.

Lemma window_key_not_cache_key (h : string) (ws u s l : Z)
    (q : option string) :
  window_key h ws ≠ cache_key u s l q.
Proof. unfold window_key, cache_key. rewrite str_app_assoc. discriminate. Qed.

Lemma window_key_not_pattern (h : string) (ws u : Z) :
  window_key h ws ≠ owner_pattern u.
Proof. unfold window_key, owner_pattern. rewrite str_app_assoc. discriminate. Qed.

Section Further.

Variable ilike : string -> string -> bool.
Variable bcrypt : string -> string.

Local Abbreviation run := (run ilike bcrypt).
Local Abbreviation serve := (serve ilike bcrypt).

(** ** The rate limiter, continued *)

Lemma verdicts_lookup (self : RateLimiterMiddleware) (ok : Response) (k : nat) :
  ∀ (n : Z) (i : nat) (r : result Response),
    verdicts self ok n k !! i = Some r →
    r = Done (if n + Z.of_nat i + 1 >? limit self
              then too_many_requests else ok).
Proof.
  induction k as [|k IH]; intros n i r; [done|].
  destruct i as [|i]; simpl.
  - intros [= <-]. by rewrite Z.add_0_r.
  - intros H. apply IH in H as ->.
    by replace (n + 1 + Z.of_nat i + 1) with (n + Z.of_nat (S i) + 1) by lia.
Qed.

Lemma verdicts_length (self : RateLimiterMiddleware) (ok : Response) (k : nat) :
  ∀ n, length (verdicts self ok n k) = k.
Proof. induction k as [|k IH]; intros n; simpl; [done|by rewrite IH]. Qed.

Lemma verdicts_under (self : RateLimiterMiddleware) (ok : Response) (k : nat) :
  ∀ n, n + Z.of_nat k ≤ limit self →
       verdicts self ok n k = replicate k (Done ok).
Proof.
  induction k as [|k IH]; intros n Hn; [done|]. simpl.
  destruct (n + 1 >? limit self) eqn:E; [lia|].
  rewrite IH by lia. done.
Qed.

(** X1. Any number of requests of one client in one bucket, any limit:
    counting from one, request [i] is handed on when [i] is at most the
    limit and answered 429 otherwise. *)
Theorem limiter_forwards_up_to_limit (self : RateLimiterMiddleware)
    (host : string) (ok : Response) (w : world) (ws : Z) (ts : list Z) :
  1 ≤ window self → outages w = [] →
  redis w !! window_key host ws = None →
  Forall (in_bucket (window self) ws) ts →
  length (serve (requests self host ok ts) w).1 = length ts ∧
  ∀ (i : nat) (r : result Response),
    (serve (requests self host ok ts) w).1 !! i = Some r →
    r = Done (if Z.of_nat i <? limit self then ok else too_many_requests).
Proof.
  intros HW Hout Hnone Hts.
  destruct (serve_bucket ilike bcrypt self host ok ws ts HW Hts w 0 Hout
              ltac:(lia) Hnone) as (w' & -> & _).
  simpl. split; [apply verdicts_length|].
  intros i r Hi. apply verdicts_lookup in Hi as ->.
  destruct (Z.of_nat i <? limit self) eqn:E1;
    destruct (0 + Z.of_nat i + 1 >? limit self) eqn:E2; try done; lia.
Qed.

(** X2. Fixed windows do not smooth: up to [limit] requests in one bucket
    followed by up to [limit] requests in the next bucket are all handed
    on, however close in time the two groups are. *)
Theorem limiter_boundary_burst (self : RateLimiterMiddleware) (host : string)
    (ok : Response) (w : world) (ws : Z) (ts1 ts2 : list Z) :
  1 ≤ window self → outages w = [] →
  (∀ b, redis w !! window_key host b = None) →
  Forall (in_bucket (window self) ws) ts1 →
  Forall (in_bucket (window self) (ws + window self)) ts2 →
  Z.of_nat (length ts1) ≤ limit self → Z.of_nat (length ts2) ≤ limit self →
  (serve (requests self host ok (ts1 ++ ts2)) w).1
    = replicate (length ts1 + length ts2) (Done ok).
Proof.
  intros HW Hout Hnone H1 H2 Hl1 Hl2.
  unfold requests. rewrite fmap_app, serve_app.
  destruct (serve_bucket ilike bcrypt self host ok ws ts1 HW H1 w 0 Hout
              ltac:(lia) (Hnone ws)) as (w1 & Hs1 & Hout1 & _ & Hfr).
  unfold requests in Hs1. rewrite Hs1.
  assert (counter_is self host (ws + window self) 0 w1) as Hc.
  { unfold counter_is. simpl. rewrite Hfr; [done|].
    intros Heq%window_key_inj. lia. }
  destruct (serve_bucket ilike bcrypt self host ok _ ts2 HW H2 w1 0 Hout1
              ltac:(lia) Hc) as (w2 & Hs2 & _).
  unfold requests in Hs2. rewrite Hs2. simpl.
  rewrite !verdicts_under by lia. by rewrite replicate_add.
Qed.

(** X3. For whatever handles the request downstream: while the count stays
    within the limit [dispatch] answers exactly what downstream answers,
    run after the counter was advanced; once the count exceeds the limit
    the answer is 429 and downstream is not run.  The counting itself does
    not depend on what is downstream and touches no table and no other
    key. *)
Theorem dispatch_hands_on_or_rejects (self : RateLimiterMiddleware)
    (host : string) (w : world) (ws n : Z) :
  1 ≤ window self → in_bucket (window self) ws (clock w) →
  outages w = [] → 0 ≤ n → counter_is self host ws n w →
  ∃ w1,
    counter_is self host ws (n + 1) w1 ∧
    notes w1 = notes w ∧ users w1 = users w ∧ clock w1 = clock w ∧
    outages w1 = [] ∧
    (∀ k, k ≠ window_key host ws → redis w1 !! k = redis w !! k) ∧
    ∀ call_next : prog Response,
      run (dispatch self host call_next) w
        = if n + 1 >? limit self then (Done too_many_requests, w1)
          else run call_next w1.
Proof.
  intros HW Hb Hout Hn Hc.
  pose proof (window_start_of _ _ _ HW Hb) as Hws.
  destruct Hb as (Hws0 & Hal & Ht).
  assert ((window self =? 0) = false) as E by lia.
  unfold counter_is in Hc. destruct (n =? 0) eqn:En.
  - apply Z.eqb_eq in En as ->.
    exists (store_set (window_key host ws) (VText (py_str 1)) (window self)
              (sent (SET (window_key host ws) (VText (py_str 1))
                       (window self))
                 (sent (GET (window_key host ws)) w))).
    split.
    { unfold counter_is. simpl. rewrite lookup_insert_eq.
      eexists. split; [done|]. lia. }
    do 4 (split; [done|]).
    split; [intros k Hk; simpl; by rewrite lookup_insert_ne|].
    intros call_next. unfold dispatch, py_mod, call. rewrite E. simpl.
    rewrite Hws. unfold redis_call, store_get. simpl. rewrite Hout, Hc.
    simpl. unfold redis_call. simpl. rewrite Hout. simpl.
    change (0 + 1) with 1. by destruct (1 >? limit self).
  - destruct Hc as (d & Hd & Hlive).
    exists (store_set (window_key host ws) (VText (py_str (n + 1)))
              (window self)
              (sent (SET (window_key host ws) (VText (py_str (n + 1)))
                       (window self))
                 (sent (GET (window_key host ws)) w))).
    split.
    { unfold counter_is. simpl. rewrite lookup_insert_eq.
      destruct (n + 1 =? 0) eqn:E1; [lia|].
      eexists. split; [done|]. lia. }
    do 4 (split; [done|]).
    split; [intros k Hk; simpl; by rewrite lookup_insert_ne|].
    intros call_next. unfold dispatch, py_mod, call. rewrite E. simpl.
    rewrite Hws. unfold redis_call, store_get. simpl. rewrite Hout, Hd.
    simpl. unfold live. simpl.
    rewrite (proj2 (Z.leb_le (clock w) d)) by lia. simpl.
    rewrite py_int_str. simpl. unfold redis_call. simpl. rewrite Hout.
    simpl. by destruct (n + 1 >? limit self).
Qed.

(** [dispatch] writes under the caller's own window keys only. *)
Lemma dispatch_quiet (K : string → Prop) (self : RateLimiterMiddleware)
    (host : string) (call_next : prog Response) :
  (∀ ws, ¬ K (window_key host ws)) → quiet_on K call_next →
  quiet_on K (dispatch self host call_next).
Proof.
  intros HK Hnext. unfold dispatch, py_mod, call. simpl.
  constructor; [done|]. intros t.
  destruct (window self =? 0); simpl; [constructor|].
  constructor; [done|]. intros [v|]; simpl.
  - destruct v as [s|rows]; simpl; [|constructor].
    destruct (py_int s) as [n|]; simpl; [|constructor].
    constructor; [apply HK|]. intros _. simpl.
    by destruct (n + 1 >? limit self); [constructor|].
  - constructor; [apply HK|]. intros _. simpl.
    by destruct (1 >? limit self); [constructor|].
Qed.

(** The notes router writes under no counter key. *)
Lemma handle_quiet_rate (r : request) : quiet_on rate_keys (handle r).
Proof.
  assert (∀ u, ¬ rate_keys (owner_pattern u)) as Hpat.
  { intros u (h & ws & H). symmetry in H. by apply window_key_not_pattern in H. }
  assert (∀ u s l q, ¬ rate_keys (cache_key u s l q)) as Hkey.
  { intros u s l q (h & ws & H). symmetry in H.
    by apply window_key_not_cache_key in H. }
  destruct r as [u note|u skip lim search|u id|u id upd|u id]; simpl.
  - repeat (constructor; try done; intros).
  - unfold get_notes, call, json_loads. simpl.
    constructor; [done|]. intros cached.
    destruct (truthy cached).
    + destruct cached as [[]|]; simpl; repeat constructor.
    + simpl. constructor; [done|]. intros rows. simpl.
      constructor; [apply Hkey|]. intros _. simpl. constructor.
  - unfold get_note, call. simpl. constructor; [done|]. intros [n|]; simpl;
      [|constructor]. case_bool_decide; simpl; constructor.
  - unfold update_note, call. simpl. constructor; [apply Hpat|]. intros _.
    simpl. constructor; [done|]. intros [n|]; simpl; [|constructor].
    case_bool_decide; simpl; [constructor|].
    constructor; [done|]. intros n'. simpl.
    constructor; [apply Hpat|]. intros _. simpl. constructor.
  - unfold delete_note, call. simpl. constructor; [done|].
    intros [n|]; simpl; [|constructor].
    case_bool_decide; simpl; [constructor|].
    constructor; [done|]. intros _. simpl.
    constructor; [apply Hpat|]. intros _. simpl. constructor.
Qed.

(** X4. Clients are counted apart.  A window key determines its client and
    its window; a request of one client, handed on or rejected, with the
    store answering or not, leaves every counter of every other client as
    it was, provided downstream handling does; and the notes router changes
    no counter of any client. *)
Theorem limiter_counts_clients_apart (self : RateLimiterMiddleware)
    (host other : string) (call_next : prog Response) (w : world)
    (key : string) :
  host ≠ other → counters_of other key →
  quiet_on (counters_of other) call_next →
  (∀ h1 h2 ws1 ws2, window_key h1 ws1 = window_key h2 ws2 →
                    h1 = h2 ∧ ws1 = ws2) ∧
  redis (run (dispatch self host call_next) w).2 !! key = redis w !! key ∧
  (∀ r, redis (run (handle r) w).2 !! key = redis w !! key).
Proof.
  intros Hne Hkey Hnext. split; [apply window_key_inj2|]. split.
  - apply (run_quiet ilike bcrypt (counters_of other)); [|done].
    apply dispatch_quiet; [|done].
    intros ws (ws' & H). apply window_key_inj2 in H as [H _]. done.
  - intros r. apply (run_quiet ilike bcrypt rate_keys); [apply handle_quiet_rate|].
    destruct Hkey as (ws & ->). by exists other, ws.
Qed.

(** ** Listings, continued *)

Lemma fmt_search_eq (q q' : option string) :
  fmt_search q = fmt_search q' ↔
  q = q' ∨ (q = None ∧ q' = Some "None") ∨ (q = Some "None" ∧ q' = None).
Proof.
  destruct q as [s|], q' as [s'|]; simpl; split; intros H.
  - left. by subst.
  - by destruct H as [[= ->]|[[? ?]|[? ?]]].
  - subst. auto.
  - by destruct H as [?|[[? ?]|[[= ->] ?]]].
  - subst. auto.
  - by destruct H as [?|[[? [= ->]]|[? ?]]].
  - by left.
  - done.
Qed.

(** X5. Two listing requests share a cache entry exactly when owner, skip,
    limit and the formatted search text agree, and the only different
    searches whose texts agree are no search and the search for "None":
    someone who searches for "None" is served the unfiltered listing cached
    under that key. *)
Theorem cache_key_shape (u : User) (s l : Z) :
  (∀ u' s' l' q q',
     cache_key (user_id u) s l q = cache_key u' s' l' q' ↔
     user_id u = u' ∧ s = s' ∧ l = l' ∧
     (q = q' ∨ (q = None ∧ q' = Some "None") ∨
      (q = Some "None" ∧ q' = None))) ∧
  (∀ w rows d,
     outages w = [] →
     redis w !! cache_key (user_id u) s l None = Some (VJson rows, d) →
     clock w ≤ d →
     (run (get_notes u s l (Some "None")) w).1 = Done rows).
Proof.
  split.
  - intros u' s' l' q q'. rewrite <- fmt_search_eq. split.
    + unfold cache_key. intros H.
      apply (inj (String.app "notes:")) in H.
      apply split_at_sep in H as [Hu H]; [|by apply py_str_free..].
      apply split_at_sep in H as [Hs H]; [|by apply py_str_free..].
      apply split_at_sep in H as [Hl H]; [|by apply py_str_free..].
      by apply py_str_inj in Hu, Hs, Hl.
    + intros (-> & -> & -> & Hq). unfold cache_key. by rewrite Hq.
  - intros w rows d Hout Hc Hd.
    unfold get_notes, call, json_loads. simpl.
    change (cache_key (user_id u) s l (Some "None"))
      with (cache_key (user_id u) s l None).
    unfold redis_call, store_get. simpl. rewrite Hout, Hc. simpl.
    unfold live. simpl. by rewrite (proj2 (Z.leb_le (clock w) d)).
Qed.

Lemma select_notes_sublist (rows : list Note) (owner : Z)
    (like : option string) (skip lim : Z) :
  select_notes ilike rows owner like skip lim `sublist_of` rows.
Proof.
  unfold select_notes.
  etrans; [apply sublist_take|]. etrans; [apply sublist_drop|].
  destruct like; [etrans; [apply filter_sublist|]|]; apply filter_sublist.
Qed.

Lemma select_notes_owner (rows : list Note) (owner : Z)
    (like : option string) (skip lim : Z) :
  Forall (λ n, owner_id n = owner) (select_notes ilike rows owner like skip lim).
Proof.
  unfold select_notes. apply Forall_take, Forall_drop.
  destruct like; apply Forall_forall; intros n Hn%list_elem_of_In%filter_In.
  - destruct Hn as [Hn%filter_In _]. lia.
  - lia.
Qed.

(** X6. A listing whose skip and limit are numbers of rows (0 to
    2^63 - 1) and that misses the cache, the store answering, returns rows
    of the table in table order, all owned by the caller, at most [limit]
    of them, and caches exactly what it returns for sixty seconds; it
    changes no table. *)
Theorem listing_miss_reads_own_rows (u : User) (skip lim : Z)
    (search : option string) (w : world) :
  row_count skip → row_count lim → outages w = [] →
  truthy (store_get (cache_key (user_id u) skip lim search) w) = false →
  ∃ rows w',
    run (get_notes u skip lim search) w = (Done rows, w') ∧
    rows = select_notes ilike (notes w) (user_id u) (like_of search) skip lim ∧
    rows `sublist_of` notes w ∧
    Forall (λ n, owner_id n = user_id u) rows ∧
    (length rows ≤ Z.to_nat lim)%nat ∧
    redis w' !! cache_key (user_id u) skip lim search
      = Some (VJson rows, clock w + 60000) ∧
    notes w' = notes w ∧ users w' = users w.
Proof.
  intros _ _ Hout Hmiss. unfold get_notes, call. simpl.
  set (key := cache_key (user_id u) skip lim search) in *.
  unfold redis_call. simpl. rewrite Hout.
  change (store_get key (sent (GET key) w)) with (store_get key w).
  rewrite Hmiss. simpl. unfold redis_call. simpl. rewrite Hout. simpl.
  eexists _, _. split; [reflexivity|]. split; [reflexivity|].
  split; [apply select_notes_sublist|]. split; [apply select_notes_owner|].
  split; [|split; [|done]].
  - unfold select_notes. rewrite length_take. lia.
  - simpl. by rewrite lookup_insert_eq.
Qed.

(** X7. What a miss cached (skip and limit being numbers of rows, 0 to
    2^63 - 1) is served for the next sixty seconds whatever happens to the
    table meanwhile, with a single [GET] and no read of the table; after
    sixty seconds the table is read again. *)
Theorem listing_cached_for_a_minute (u : User) (skip lim : Z)
    (search : option string) (w : world) :
  row_count skip → row_count lim → outages w = [] →
  truthy (store_get (cache_key (user_id u) skip lim search) w) = false →
  ∃ rows w1,
    run (get_notes u skip lim search) w = (Done rows, w1) ∧
    (∀ t table, t ≤ clock w + 60000 →
       run (get_notes u skip lim search) (at_time t (with_notes table w1))
         = (Done rows,
            sent (GET (cache_key (user_id u) skip lim search))
                 (at_time t (with_notes table w1)))) ∧
    (∀ t table, clock w + 60000 < t →
       (run (get_notes u skip lim search)
            (at_time t (with_notes table w1))).1
         = Done (select_notes ilike table (user_id u) (like_of search)
                   skip lim)).
Proof.
  intros _ _ Hout Hmiss. unfold get_notes, call. simpl.
  set (key := cache_key (user_id u) skip lim search) in *.
  unfold redis_call. simpl. rewrite Hout.
  change (store_get key (sent (GET key) w)) with (store_get key w).
  rewrite Hmiss. simpl. unfold redis_call. simpl. rewrite Hout. simpl.
  eexists _, _. split; [reflexivity|]. split.
  - intros t table Ht. unfold redis_call, store_get. simpl. rewrite Hout.
    rewrite lookup_insert_eq. simpl. unfold live. simpl.
    change (1000 * 60) with 60000.
    rewrite (proj2 (Z.leb_le t (clock w + 60000))) by lia. reflexivity.
  - intros t table Ht. unfold redis_call, store_get. simpl. rewrite Hout.
    rewrite lookup_insert_eq. simpl. unfold live. simpl.
    change (1000 * 60) with 60000.
    rewrite (proj2 (Z.leb_gt t (clock w + 60000))) by lia. simpl.
    unfold redis_call. simpl. by rewrite Hout.
Qed.

(** X8. Listing depends on the store (skip and limit being numbers of
    rows, 0 to 2^63 - 1): when the [get] fails, or the [get] misses and
    the [set] fails, the request fails with the store's error, although
    the table could have answered; neither the table nor the store is
    changed. *)
Theorem listing_needs_the_store (u : User) (skip lim : Z)
    (search : option string) (w : world) (o : list bool) :
  let key := cache_key (user_id u) skip lim search in
  row_count skip → row_count lim →
  (outages w = true :: o →
     run (get_notes u skip lim search) w
       = (Raised RedisError, with_outages o (sent (GET key) w))) ∧
  (outages w = false :: true :: o → truthy (store_get key w) = false →
     (run (get_notes u skip lim search) w).1 = Raised RedisError ∧
     notes (run (get_notes u skip lim search) w).2 = notes w ∧
     redis (run (get_notes u skip lim search) w).2 = redis w).
Proof.
  intros key _ _. unfold get_notes, call. fold key. simpl. split.
  - intros Hout. unfold redis_call. simpl. by rewrite Hout.
  - intros Hout Hmiss. unfold redis_call. simpl. rewrite Hout.
    change (store_get key (with_outages (true :: o) (sent (GET key) w)))
      with (store_get key w).
    rewrite Hmiss. simpl. unfold redis_call. simpl. done.
Qed.

(** ** Single notes, continued *)

Lemma find_fresh (id : Z) (rows : list Note) :
  id ∉ ids rows → List.find (λ n, note_id n =? id) rows = None.
Proof.
  unfold ids. induction rows as [|r rows IH]; [done|].
  rewrite fmap_cons, not_elem_of_cons. intros [Hr Hrows]. simpl.
  destruct (note_id r =? id) eqn:E; [lia|auto].
Qed.

Lemma find_app_row (id : Z) (rows : list Note) (row : Note) :
  List.find (λ n, note_id n =? id) (rows ++ [row])
    = match List.find (λ n, note_id n =? id) rows with
      | Some n => Some n
      | None => if note_id row =? id then Some row else None
      end.
Proof.
  induction rows as [|r rows IH]; simpl; [done|].
  by destruct (note_id r =? id).
Qed.

Lemma find_replace (id k : Z) (n' : Note) (rows : list Note) :
  note_id n' = k →
  List.find (λ n, note_id n =? id)
            ((λ r, if note_id r =? k then n' else r) <$> rows)
    = if k =? id
      then (λ _, n') <$> List.find (λ n, note_id n =? id) rows
      else List.find (λ n, note_id n =? id) rows.
Proof.
  intros Hk. induction rows as [|r rows IH]; [by destruct (_ =? _)|].
  rewrite fmap_cons. simpl. rewrite IH.
  destruct (note_id r =? k) eqn:E1; destruct (k =? id) eqn:E2;
    destruct (note_id r =? id) eqn:E3; destruct (note_id n' =? id) eqn:E4;
    try done; lia.
Qed.

Lemma find_remove (id : Z) (n : Note) (rows : list Note) :
  List.find (λ r, note_id r =? id)
            (List.filter (λ r, negb (note_id r =? note_id n)) rows)
    = if note_id n =? id then None
      else List.find (λ r, note_id r =? id) rows.
Proof.
  induction rows as [|r rows IH]; [by destruct (_ =? _)|].
  rewrite filter_cons_eq.
  destruct (note_id r =? note_id n) eqn:E1; simpl; rewrite IH;
    destruct (note_id n =? id) eqn:E2;
    destruct (note_id r =? id) eqn:E3; try done; lia.
Qed.

Lemma replace_same (k : Z) (n : Note) (rows : list Note) :
  (∀ r, r ∈ rows → note_id r = k → r = n) →
  (λ r, if note_id r =? k then n else r) <$> rows = rows.
Proof.
  induction rows as [|r rows IH]; [done|]. intros H.
  rewrite fmap_cons, IH by (intros; apply H; set_solver). f_equal.
  destruct (note_id r =? k) eqn:E; [|done].
  symmetry. apply H; [set_solver|lia].
Qed.

(** X9. [create_note] never fails and needs no Redis.  It appends one row
    with the given title and content, owned by the caller, under an id no
    row had; the caller reads that row back with [get_note], any other user
    is refused it, and every note that could be looked up before still
    can. *)
Theorem create_note_round_trip (note : NoteCreate) (u : User) (w : world) :
  ∃ n,
    run (create_note note u) w = (Done n, with_notes (notes w ++ [n]) w) ∧
    title n = nc_title note ∧ content n = nc_content note ∧
    owner_id n = user_id u ∧ (note_id n ∉ ids (notes w)) ∧
    (let w' := with_notes (notes w ++ [n]) w in
     run (get_note (note_id n) u) w' = (Done n, w') ∧
     (∀ other, user_id other ≠ user_id u →
        run (get_note (note_id n) other) w'
          = (Raised (forbidden "Not authorized to access this note"), w')) ∧
     (∀ id m, lookup_note id w = Some m → lookup_note id w' = Some m)).
Proof.
  eexists. split; [reflexivity|]. do 3 (split; [reflexivity|]).
  pose proof (next_id_fresh (ids (notes w))) as Hfresh.
  split; [exact Hfresh|]. simpl.
  assert (lookup_note (next_id (note_id <$> notes w))
            (with_notes
               (notes w ++
                [{| note_id := next_id (note_id <$> notes w);
                    title := nc_title note; content := nc_content note;
                    owner_id := user_id u |}]) w)
          = Some {| note_id := next_id (note_id <$> notes w);
                    title := nc_title note; content := nc_content note;
                    owner_id := user_id u |}) as Hnew.
  { unfold lookup_note. simpl. rewrite find_app_row, find_fresh by done.
    simpl. by rewrite Z.eqb_refl. }
  unfold lookup_note in Hnew. simpl in Hnew.
  split; [|split].
  - unfold get_note, call. simpl. rewrite Hnew. simpl.
    by rewrite bool_decide_false by (intros ?; done).
  - intros other Hother. unfold get_note, call. simpl. rewrite Hnew. simpl.
    by rewrite bool_decide_true by congruence.
  - intros id m Hm. unfold lookup_note in *. simpl.
    by rewrite find_app_row, Hm.
Qed.

(** X10. [update_note] on the caller's own note, the store answering:
    the fields given replace the old ones, the fields left out stay, id and
    owner stay; the updated row is what [get_note] returns afterwards; no
    other note changes and none is added or removed; and an update that
    gives no field leaves the table as it was. *)
Theorem update_note_round_trip (id : Z) (upd : NoteUpdate) (u : User)
    (w : world) (n : Note) :
  outages w = [] → NoDup (ids (notes w)) →
  lookup_note id w = Some n → owner_id n = user_id u →
  let n' :=
    {| note_id := id; title := default (title n) (nu_title upd);
       content := default (content n) (nu_content upd);
       owner_id := user_id u |} in
  ∃ w',
    run (update_note id upd u) w = (Done n', w') ∧
    lookup_note id w' = Some n' ∧
    run (get_note id u) w' = (Done n', w') ∧
    (∀ id', id' ≠ id → lookup_note id' w' = lookup_note id' w) ∧
    length (notes w') = length (notes w) ∧
    (nu_title upd = None → nu_content upd = None → notes w' = notes w).
Proof.
  intros Hout Hnd Hn Hown n'. unfold lookup_note in Hn.
  assert (note_id n = id) as Hid
    by (apply List.find_some in Hn as [_ H%Z.eqb_eq]; done).
  assert (apply_update upd n = n') as Hn'.
  { unfold apply_update, n'. by rewrite Hid, Hown. }
  unfold update_note, call. simpl.
  unfold redis_call. simpl. rewrite Hout. simpl. rewrite Hn.
  rewrite bool_decide_false by (intros ?; done). simpl.
  unfold redis_call. simpl. rewrite Hout. simpl. rewrite Hn'.
  eexists. split; [reflexivity|].
  assert (List.find (λ m, note_id m =? id)
            ((λ r, if note_id r =? note_id n then n' else r) <$> notes w)
          = Some n') as Hfind.
  { rewrite find_replace by (simpl; congruence).
    by rewrite Hid, Z.eqb_refl, Hn. }
  split; [exact Hfind|]. split; [|split; [|split]].
  - unfold get_note, call. simpl. rewrite Hfind. simpl.
    by rewrite bool_decide_false by (intros ?; done).
  - intros id' Hne. unfold lookup_note. simpl.
    rewrite find_replace by (simpl; congruence).
    destruct (note_id n =? id') eqn:E; [lia|done].
  - simpl. by rewrite length_fmap.
  - intros Ht Hc. simpl. apply replace_same. intros r Hr Hrid.
    assert (r = n) as -> by (eapply find_unique; eauto; congruence).
    unfold n'. destruct n. simpl in *. by rewrite Ht, Hc, Hid, Hown.
Qed.

(** X11. [delete_note] on the caller's own note, the store answering: the
    note is gone — looking it up, reading it or deleting it again gives
    404 — and every other note is still there. *)
Theorem delete_note_round_trip (id : Z) (u : User) (w : world) (n : Note) :
  outages w = [] →
  lookup_note id w = Some n → owner_id n = user_id u →
  ∃ w',
    run (delete_note id u) w = (Done tt, w') ∧
    lookup_note id w' = None ∧
    run (get_note id u) w' = (Raised not_found, w') ∧
    run (delete_note id u) w' = (Raised not_found, w') ∧
    (∀ id', id' ≠ id → lookup_note id' w' = lookup_note id' w).
Proof.
  intros Hout Hn Hown. unfold lookup_note in Hn.
  assert (note_id n = id) as Hid
    by (apply List.find_some in Hn as [_ H%Z.eqb_eq]; done).
  unfold delete_note, call. simpl. rewrite Hn.
  rewrite bool_decide_false by (intros ?; done). simpl.
  unfold redis_call. simpl. rewrite Hout. simpl.
  eexists. split; [reflexivity|].
  assert (List.find (λ m, note_id m =? id)
            (List.filter (λ r, negb (note_id r =? note_id n)) (notes w))
          = None) as Hfind.
  { rewrite find_remove. by rewrite Hid, Z.eqb_refl. }
  split; [exact Hfind|]. split; [|split].
  - unfold get_note, call. simpl. by rewrite Hfind.
  - simpl. by rewrite Hfind.
  - intros id' Hne. unfold lookup_note. simpl. rewrite find_remove.
    destruct (note_id n =? id') eqn:E; [lia|done].
Qed.

(** X12. The table is committed before the cache is told.  When the store
    refuses the invalidation that follows the commit, [delete_note] and
    [update_note] raise the store's error although the note is already
    deleted, respectively updated; when the store refuses the invalidation
    [update_note] sends first, nothing is changed. *)
Theorem mutation_committed_before_invalidation (id : Z) (upd : NoteUpdate)
    (u : User) (w : world) (n : Note) (o : list bool) :
  lookup_note id w = Some n → owner_id n = user_id u →
  (outages w = true :: o →
     (run (delete_note id u) w).1 = Raised RedisError ∧
     lookup_note id (run (delete_note id u) w).2 = None ∧
     (run (update_note id upd u) w).1 = Raised RedisError ∧
     notes (run (update_note id upd u) w).2 = notes w) ∧
  (outages w = false :: true :: o →
     (run (update_note id upd u) w).1 = Raised RedisError ∧
     lookup_note id (run (update_note id upd u) w).2
       = Some (apply_update upd n)).
Proof.
  intros Hn Hown. unfold lookup_note in Hn.
  assert (note_id n = id) as Hid
    by (apply List.find_some in Hn as [_ H%Z.eqb_eq]; done).
  split.
  - intros Hout. unfold delete_note, update_note, call. simpl. rewrite Hn.
    rewrite bool_decide_false by (intros ?; done). simpl.
    unfold redis_call. simpl. rewrite Hout. simpl.
    split; [done|]. split; [|done].
    unfold lookup_note. simpl. rewrite find_remove.
    by rewrite Hid, Z.eqb_refl.
  - intros Hout. unfold update_note, call. simpl.
    unfold redis_call. simpl. rewrite Hout. simpl. rewrite Hn.
    rewrite bool_decide_false by (intros ?; done). simpl.
    unfold redis_call. simpl. split; [done|].
    unfold lookup_note. simpl. rewrite find_replace by done.
    by rewrite Hid, Z.eqb_refl, Hn.
Qed.

(** ** Tokens, continued *)

Lemma find_user_name (name : string) (us : list User) (u : User) :
  List.find (λ u, String.eqb (username u) name) us = Some u →
  username u = name ∧ u ∈ us.
Proof.
  intros [Hin Hname]%List.find_some. split.
  - by apply String.eqb_eq.
  - by apply list_elem_of_In.
Qed.

Lemma find_user_fresh (name : string) (us : list User) :
  List.find (λ u, String.eqb (username u) name) us = None ↔
  name ∉ username <$> us.
Proof.
  induction us as [|u us IH]; simpl.
  - split; [intros _ H; by inversion H|done].
  - rewrite not_elem_of_cons, <- IH.
    destruct (String.eqb (username u) name) eqn:E.
    + apply String.eqb_eq in E. split; [done|]. intros [H _]. by destruct H.
    + apply String.eqb_neq in E. split; [intros H; split; congruence|].
      by intros [_ H].
Qed.

Lemma find_user_app (name : string) (us : list User) (u : User) :
  List.find (λ u, String.eqb (username u) name) (us ++ [u])
    = match List.find (λ u, String.eqb (username u) name) us with
      | Some v => Some v
      | None => if String.eqb (username u) name then Some u else None
      end.
Proof.
  induction us as [|v us IH]; simpl; [done|].
  by destruct (String.eqb (username v) name).
Qed.

(** X13. [get_current_user] returns a user only for a token whose header
    names HS256 and whose tag was computed under the server's secret over
    that header and those very claims, whose expiry, if it carries one, has
    not passed, and whose subject is a string; the user returned is the
    first row with that username; nothing is changed. *)
Theorem get_current_user_sound (secret : string) (t : jwt.token)
    (w w' : world) (u : User) :
  run (get_current_user secret t) w = (Done u, w') →
  w' = w ∧
  ∃ claims name,
    t = jwt.Jws ALGORITHM claims (jwt.Hmac secret ALGORITHM claims) ∧
    claims !! "sub" = Some (PStr name) ∧
    lookup_user name w = Some u ∧ username u = name ∧
    (∀ e, claims !! "exp" = Some (PInt e) → jwt.timegm (clock w) ≤ e).
Proof.
  destruct t as [alg claims sig|raw|raw]; [|done..].
  rewrite get_current_user_Jws.
  case_bool_decide as Halg; [|done].
  apply list_elem_of_singleton in Halg as ->.
  case_bool_decide as Hsig; [subst sig|done].
  destruct (jwt.validate_claims _ _) as [[]|] eqn:Hv; try done.
  destruct (claims !! "sub") as [[| | | |name|]|] eqn:Hsub; try done.
  destruct (lookup_user name w) as [v|] eqn:Hfind; [|done].
  intros [= -> <-]. split; [done|]. exists claims, name.
  do 3 (split; [done|]).
  split; [exact (proj1 (find_user_name _ _ _ Hfind))|].
  intros e He. revert Hv. unfold jwt.validate_claims.
  destruct (jwt.validate_iat claims); [done|].
  destruct (jwt.validate_nbf claims _); [done|].
  unfold jwt.validate_exp. rewrite He. simpl.
  destruct (e <? jwt.timegm (clock w)) eqn:E; [done|lia].
Qed.

(** X14. Given a dictionary [jwt.encode] can serialise (no [datetime]
    but under iat or nbf, no integer too long to print) and an expiry
    within the range of [datetime], [create_access_token] returns a token
    signed under the secret with HS256 whose expiry is the issue time plus
    the lifetime, in whole seconds: an "exp" the caller put in the
    dictionary is overwritten, and no lifetime or a zero one means thirty
    minutes.  A [datetime] under iat or nbf becomes its timestamp, every
    other claim is carried over as it is.  A value it cannot serialise — a
    [datetime] anywhere else — makes it raise [TypeError] and return no
    token. *)
Theorem create_access_token_claims (secret : string)
    (data : gmap string pyval) (expires_delta : option Z) (w : world) :
  datetime_range (clock w + lifetime expires_delta) →
  ((∀ k v, data !! k = Some v → k ≠ "exp" →
           dumpable k v = true ∧ printable v) →
   ∃ claims,
     run (create_access_token secret data expires_delta) w
       = (Done (jwt.Jws ALGORITHM claims (jwt.Hmac secret ALGORITHM claims)),
          w) ∧
     claims !! "exp"
       = Some (PInt (jwt.timegm (clock w + lifetime expires_delta))) ∧
     (expires_delta = None ∨ expires_delta = Some 0 →
      claims !! "exp" = Some (PInt (jwt.timegm (clock w + 1800000)))) ∧
     (∀ k, k ≠ "exp" → k ≠ "iat" → k ≠ "nbf" → claims !! k = data !! k) ∧
     (∀ k, k = "iat" ∨ k = "nbf" →
           claims !! k = jwt.as_timestamp <$> data !! k)) ∧
  (∀ k v, data !! k = Some v → k ≠ "exp" → dumpable k v = false →
     run (create_access_token secret data expires_delta) w
       = (Raised TypeError, w)).
Proof.
  intros _.
  assert (∃ ms, ms = clock w + lifetime expires_delta ∧
    run (create_access_token secret data expires_delta) w
      = run (jwt.encode (<["exp" := PDatetime ms]> data) secret ALGORITHM) w)
    as (ms & Hms & ->).
  { eexists. split; [reflexivity|].
    unfold create_access_token, call, lifetime, jwt.encode. simpl.
    destruct expires_delta as [d|]; [destruct (d =? 0)|];
      by case_bool_decide. }
  unfold jwt.encode.
  set (claims := alter jwt.as_timestamp "nbf" _).
  assert (claims !! "exp" = Some (PInt (jwt.timegm ms))) as Hexp.
  { subst claims. rewrite !lookup_alter_ne by done.
    by rewrite lookup_alter_eq, lookup_insert_eq. }
  assert (∀ k, k ≠ "exp" → k ≠ "iat" → k ≠ "nbf" → claims !! k = data !! k)
    as Hrest.
  { intros k H1 H2 H3. subst claims. rewrite !lookup_alter_ne by done.
    by rewrite lookup_insert_ne. }
  assert (∀ k, k = "iat" ∨ k = "nbf" →
               claims !! k = jwt.as_timestamp <$> data !! k) as Htime.
  { intros k [->| ->]; subst claims.
    - rewrite lookup_alter_ne, lookup_alter_eq by done.
      by rewrite lookup_alter_ne, lookup_insert_ne.
    - rewrite lookup_alter_eq, !lookup_alter_ne by done.
      by rewrite lookup_insert_ne. }
  assert (∀ k, k ∈ ["exp"; "iat"; "nbf"] ↔ k = "exp" ∨ k = "iat" ∨ k = "nbf")
    as Hkeys.
  { intros k. rewrite !elem_of_cons, elem_of_nil. tauto. }
  assert (∀ k v, k ≠ "exp" → claims !! k = Some v →
            ∃ v0, data !! k = Some v0 ∧ json_able v = dumpable k v0)
    as Hback.
  { intros k v Hk. unfold dumpable.
    destruct (decide (k = "iat" ∨ k = "nbf")) as [Hkk|Hkk].
    - rewrite (Htime k Hkk), bool_decide_true by (apply Hkeys; tauto).
      destruct (data !! k) as [v0|]; [|done]. intros [= <-]. eauto.
    - rewrite Hrest by tauto.
      rewrite bool_decide_false by (rewrite Hkeys; tauto). eauto. }
  split.
  - intros Hdata. rewrite bool_decide_true.
    + exists claims. split; [done|]. subst ms. split; [exact Hexp|].
      split; [|done].
      intros [->| ->]; exact Hexp.
    + intros k v Hv. destruct (decide (k = "exp")) as [->|Hk].
      * rewrite Hexp in Hv. by injection Hv as <-.
      * destruct (Hback k v Hk Hv) as (v0 & Hv0 & ->).
        by apply (Hdata k v0).
  - intros k v Hv Hk Hbad. rewrite bool_decide_false; [done|].
    intros Hall.
    assert (∃ v', claims !! k = Some v' ∧ json_able v' = dumpable k v)
      as (v' & Hv' & Hj).
    { unfold dumpable.
      destruct (decide (k = "iat" ∨ k = "nbf")) as [Hkk|Hkk].
      - rewrite (Htime k Hkk), Hv, bool_decide_true by (apply Hkeys; tauto).
        eauto.
      - rewrite Hrest by tauto.
        rewrite bool_decide_false by (rewrite Hkeys; tauto). eauto. }
    specialize (Hall k v' Hv'). simpl in Hall. congruence.
Qed.

(** ** Logging in *)

Variable pwd_context_verify : string -> string -> exn + bool.

(** What [login] does, by what the user table and passlib answer. *)
Lemma login_run (credentials : UserLogin) (w : world) :
  run (login pwd_context_verify credentials) w
    = (match lookup_user (ul_username credentials) w with
       | None => Raised login_exception
       | Some u =>
           match pwd_context_verify (ul_password credentials) (password u)
           with
           | inl e => Raised e
           | inr false => Raised login_exception
           | inr true =>
               Done {| access_token :=
                         issued_token SECRET_KEY (username u)
                           (jwt.timegm (clock w + 1800000));
                       token_type := "bearer" |}
           end
       end, w).
Proof.
  unfold login, verify_password, get_user, call, lookup_user. simpl.
  destruct (List.find _ (users w)) as [u|]; simpl; [|done].
  destruct (pwd_context_verify _ _) as [e|[]]; simpl; done.
Qed.

(** X15. [login] refuses in one way: an unknown username and a password
    the stored hash does not verify both raise the same 401 with the same
    detail and headers, issue no token and change nothing.  The only other
    way [login] fails is passlib's own error, raised by the check of the
    password against the stored text and passed on as it is. *)
Theorem login_failure_uniform (credentials : UserLogin) (w : world) :
  (lookup_user (ul_username credentials) w = None ∨
   (∃ u, lookup_user (ul_username credentials) w = Some u ∧
         pwd_context_verify (ul_password credentials) (password u)
           = inr false) →
   run (login pwd_context_verify credentials) w
     = (Raised login_exception, w)) ∧
  (∀ e w', run (login pwd_context_verify credentials) w = (Raised e, w') →
     w' = w ∧
     (e = login_exception ∧
      (lookup_user (ul_username credentials) w = None ∨
       ∃ u, lookup_user (ul_username credentials) w = Some u ∧
            pwd_context_verify (ul_password credentials) (password u)
              = inr false) ∨
      ∃ u, lookup_user (ul_username credentials) w = Some u ∧
           pwd_context_verify (ul_password credentials) (password u)
             = inl e)).
Proof.
  rewrite login_run.
  destruct (lookup_user _ w) as [u|].
  - destruct (pwd_context_verify _ _) as [err|[]] eqn:Hv.
    + split; [intros [?|(v & [= <-] & ?)]; congruence|].
      intros e w' [= <- <-]. eauto.
    + split; [intros [?|(v & [= <-] & ?)]; congruence|]. done.
    + split; [done|]. intros e w' [= <- <-]. eauto 7.
  - split; [done|]. intros e w' [= <- <-]. auto.
Qed.

(** X16. A successful [login] changes nothing and returns a bearer token
    that [get_current_user] resolves to the user who logged in, at once
    and for the next thirty minutes (through the expiry second), and
    refuses afterwards. *)
Theorem login_token_authenticates (credentials : UserLogin) (w : world)
    (u : User) :
  lookup_user (ul_username credentials) w = Some u →
  pwd_context_verify (ul_password credentials) (password u) = inr true →
  ∃ tok,
    run (login pwd_context_verify credentials) w
      = (Done {| access_token := tok; token_type := "bearer" |}, w) ∧
    run (get_current_user SECRET_KEY tok) w = (Done u, w) ∧
    (∀ t, jwt.timegm t ≤ jwt.timegm (clock w + 1800000) →
       run (get_current_user SECRET_KEY tok) (at_time t w)
         = (Done u, at_time t w)) ∧
    (∀ t, jwt.timegm (clock w + 1800000) < jwt.timegm t →
       run (get_current_user SECRET_KEY tok) (at_time t w)
         = (Raised credentials_exception, at_time t w)).
Proof.
  intros Hu Hv.
  pose proof (find_user_name _ _ _ Hu) as [Hname _].
  assert (lookup_user (username u) w = Some u) as Hu'
    by (by rewrite Hname).
  exists (issued_token SECRET_KEY (username u)
            (jwt.timegm (clock w + 1800000))).
  split; [|split; [|split]].
  - by rewrite login_run, Hu, Hv.
  - rewrite get_current_user_issued, bool_decide_true by done.
    assert (jwt.timegm (clock w) ≤ jwt.timegm (clock w + 1800000)) as Hle
      by (unfold jwt.timegm; apply Z.div_le_mono; lia).
    apply Z.ltb_ge in Hle. by rewrite Hle, Hu'.
  - intros t Ht. rewrite get_current_user_issued, bool_decide_true by done.
    simpl. apply Z.ltb_ge in Ht. rewrite Ht.
    change (lookup_user (username u) (at_time t w))
      with (lookup_user (username u) w). by rewrite Hu'.
  - intros t Ht. rewrite get_current_user_issued, bool_decide_true by done.
    simpl. apply Z.ltb_lt in Ht. by rewrite Ht.
Qed.

(** X17. Registration, login and authentication fit together: after a
    username was registered with a password its hash verifies, logging in
    with that username and password succeeds and the token resolves to the
    registered user; a password the hash does not verify is refused. *)
Theorem register_then_login (user : UserCreate) (w : world) :
  lookup_user (uc_username user) w = None →
  pwd_context_verify (uc_password user) (bcrypt (uc_password user))
    = inr true →
  ∃ u w1 tok,
    run (register user) w = (Done u, w1) ∧
    password u = bcrypt (uc_password user) ∧
    run (login pwd_context_verify
           {| ul_username := uc_username user;
              ul_password := uc_password user |}) w1
      = (Done {| access_token := tok; token_type := "bearer" |}, w1) ∧
    run (get_current_user SECRET_KEY tok) w1 = (Done u, w1) ∧
    (∀ pw, pwd_context_verify pw (bcrypt (uc_password user)) = inr false →
       run (login pwd_context_verify
              {| ul_username := uc_username user; ul_password := pw |}) w1
         = (Raised login_exception, w1)).
Proof.
  intros Hfree Hv. unfold lookup_user in Hfree.
  set (u := {| user_id := next_id (user_id <$> users w);
               username := uc_username user;
               password := bcrypt (uc_password user); role := "user" |}).
  set (w1 := with_users (users w ++ [u]) w).
  assert (run (register user) w = (Done u, w1)) as Hreg.
  { unfold register, get_user, hash_password, call. simpl.
    by rewrite Hfree. }
  assert (lookup_user (uc_username user) w1 = Some u) as Hu.
  { unfold lookup_user. simpl. rewrite find_user_app, Hfree. simpl.
    by rewrite String.eqb_refl. }
  exists u, w1, (issued_token SECRET_KEY (uc_username user)
                   (jwt.timegm (clock w + 1800000))).
  split; [done|]. split; [done|]. split; [|split].
  - rewrite login_run. cbn [ul_username ul_password]. rewrite Hu.
    change (password u) with (bcrypt (uc_password user)). by rewrite Hv.
  - rewrite get_current_user_issued, bool_decide_true by done.
    assert (jwt.timegm (clock w1) ≤ jwt.timegm (clock w + 1800000)) as Hle
      by (unfold jwt.timegm; apply Z.div_le_mono; simpl; lia).
    apply Z.ltb_ge in Hle. by rewrite Hle, Hu.
  - intros pw Hpw. rewrite login_run. cbn [ul_username ul_password].
    rewrite Hu. change (password u) with (bcrypt (uc_password user)).
    by rewrite Hpw.
Qed.

(** X18. [register] keeps usernames and user ids unique, and a username
    that was registered cannot be registered again, whatever the
    password. *)
Theorem register_keeps_usernames_unique (user : UserCreate) (w : world) :
  NoDup (username <$> users w) → NoDup (user_id <$> users w) →
  NoDup (username <$> users (run (register user) w).2) ∧
  NoDup (user_id <$> users (run (register user) w).2) ∧
  ∀ pw, run (register {| uc_username := uc_username user;
                         uc_password := pw |})
            (run (register user) w).2
        = (Raised (HTTPException 400 "Username already registered" []),
           (run (register user) w).2).
Proof.
  intros Hnames Hids.
  unfold register, get_user, hash_password, call. simpl.
  destruct (List.find _ (users w)) as [v|] eqn:Hfind; simpl.
  - split; [done|]. split; [done|]. intros pw. by rewrite Hfind.
  - rewrite !fmap_app. simpl. split; [|split].
    + apply NoDup_app. split; [done|]. split; [|apply NoDup_singleton].
      intros x Hx ->%list_elem_of_singleton.
      by apply find_user_fresh in Hfind.
    + apply NoDup_app. split; [done|]. split; [|apply NoDup_singleton].
      intros x Hx ->%list_elem_of_singleton.
      by apply (next_id_fresh (user_id <$> users w)).
    + intros pw. rewrite find_user_app, Hfind. simpl.
      by rewrite String.eqb_refl.
Qed.

End Further.

(** * Further examples *)

(** *** The rate limiter *)

(** Seven requests under a limit of five: the sixth and seventh are
    rejected. *)
Lemma limiter_forwards_up_to_limit_witness :
  length (serve0 (requests five_per_minute "203.0.113.7" ok200
                    (end_of_bucket ++ [1700000039999; 1700000039999;
                                       1700000039999])) world0).1 = 7%nat ∧
  (serve0 (requests five_per_minute "203.0.113.7" ok200
             (end_of_bucket ++ [1700000039999; 1700000039999;
                                1700000039999])) world0).1 !! 5%nat
    = Some (Done too_many_requests).
Proof.
  assert (Forall (in_bucket (window five_per_minute) 1699999980)
            (end_of_bucket ++ [1700000039999; 1700000039999;
                               1700000039999])) as Hts.
  { repeat (apply List.Forall_cons;
            [split; [lia|split; [reflexivity|simpl; lia]]|]).
    apply List.Forall_nil. }
  destruct (limiter_forwards_up_to_limit any_title tagged_hash
              five_per_minute "203.0.113.7" ok200 world0 1699999980 _
              ltac:(simpl; lia) eq_refl eq_refl Hts) as [Hlen Hall].
  split; [exact Hlen|].
  destruct (lookup_lt_is_Some_2 _ 5%nat
              ltac:(rewrite Hlen; simpl; lia)) as [r Hr].
  rewrite Hr. f_equal. exact (Hall 5%nat r Hr).
Defined.

(** Four requests in the last four milliseconds of a bucket and four in
    the first four of the next, under a limit of five: eight requests
    within eight milliseconds, all handed on. *)
Lemma limiter_boundary_burst_witness :
  (serve0 (requests five_per_minute "203.0.113.7" ok200
             (end_of_bucket ++ start_of_next)) world0).1
    = replicate 8 (Done ok200).
Proof.
  apply (limiter_boundary_burst any_title tagged_hash five_per_minute
           "203.0.113.7" ok200 world0 1699999980 end_of_bucket
           start_of_next);
    [simpl; lia|reflexivity|intros b; reflexivity| | |simpl; lia|simpl; lia].
  - repeat (apply List.Forall_cons;
            [split; [lia|split; [reflexivity|simpl; lia]]|]).
    apply List.Forall_nil.
  - repeat (apply List.Forall_cons;
            [split; [simpl; lia|split; [reflexivity|simpl; lia]]|]).
    apply List.Forall_nil.
Defined.

(** The first request of a client is counted and handed on to whatever is
    downstream — here the notes router creating a note. *)
Lemma dispatch_hands_on_or_rejects_witness :
  ∃ w1,
    counter_is five_per_minute "203.0.113.7" 1699999980 1 w1 ∧
    run0 (dispatch five_per_minute "203.0.113.7"
            (handle (CreateNote alice first_note) ;;; Ret ok200)) world0
      = run0 (handle (CreateNote alice first_note) ;;; Ret ok200) w1.
Proof.
  destruct (dispatch_hands_on_or_rejects any_title tagged_hash
              five_per_minute "203.0.113.7" world0 1699999980 0
              ltac:(simpl; lia)
              ltac:(split; [lia|split; [reflexivity|simpl; lia]])
              eq_refl ltac:(lia) eq_refl)
    as (w1 & Hc & _ & _ & _ & _ & _ & Hrun).
  exists w1. split; [exact Hc|]. apply Hrun.
Defined.

Lemma limiter_counts_clients_apart_witness :
  redis (run0 (dispatch five_per_minute "203.0.113.7" (Ret ok200)) world0).2
    !! window_key "198.51.100.9" 1699999980
    = redis world0 !! window_key "198.51.100.9" 1699999980.
Proof.
  apply (limiter_counts_clients_apart any_title tagged_hash five_per_minute
           "203.0.113.7" "198.51.100.9" (Ret ok200) world0);
    [discriminate|by exists 1699999980|constructor].
Defined.

(** *** Listings *)

(** Alice's unfiltered first page is cached; her search for "None" is
    served that page. *)
Lemma cache_key_shape_witness :
  (run0 (get_notes alice 0 10 (Some "None")) world_created).1 = Done [].
Proof.
  apply (proj2 (cache_key_shape any_title tagged_hash alice 0 10)
           world_created [] 1700000060000);
    [reflexivity|reflexivity|vm_compute; discriminate].
Defined.

Lemma listing_miss_reads_own_rows_witness :
  ∃ rows w',
    run0 (get_notes alice 0 10 None) world_two_notes = (Done rows, w') ∧
    rows = [alice_note] ∧
    Forall (λ n, owner_id n = user_id alice) rows ∧
    (length rows ≤ Z.to_nat 10)%nat.
Proof.
  destruct (listing_miss_reads_own_rows any_title tagged_hash alice 0 10 None
              world_two_notes ltac:(unfold row_count; lia)
              ltac:(unfold row_count; lia) eq_refl eq_refl)
    as (rows & w' & Hrun & Hrows & _ & Hown & Hlen & _).
  exists rows, w'. split; [exact Hrun|]. split; [exact Hrows|].
  split; [exact Hown|exact Hlen].
Defined.

Lemma listing_cached_for_a_minute_witness :
  ∃ rows w1,
    run0 (get_notes alice 0 10 None) world0 = (Done rows, w1) ∧
    (run0 (get_notes alice 0 10 None)
          (at_time 1700000060000 (with_notes [alice_note] w1))).1
      = Done rows ∧
    (run0 (get_notes alice 0 10 None)
          (at_time 1700000060001 (with_notes [alice_note] w1))).1
      = Done [alice_note].
Proof.
  destruct (listing_cached_for_a_minute any_title tagged_hash alice 0 10 None
              world0 ltac:(unfold row_count; lia)
              ltac:(unfold row_count; lia) eq_refl eq_refl)
    as (rows & w1 & Hrun & Hhit & Hmiss).
  exists rows, w1. split; [exact Hrun|]. split.
  - rewrite (Hhit 1700000060000 [alice_note] ltac:(simpl; lia)). reflexivity.
  - apply (Hmiss 1700000060001 [alice_note]). simpl. lia.
Defined.

Lemma listing_needs_the_store_witness :
  (run0 (get_notes alice 0 10 None)
        (with_outages [true] world_two_notes)).1 = Raised RedisError ∧
  (run0 (get_notes alice 0 10 None)
        (with_outages [false; true] world_two_notes)).1 = Raised RedisError.
Proof.
  assert (row_count 0 ∧ row_count 10) as [H0 H10]
    by (unfold row_count; lia).
  split.
  - rewrite (proj1 (listing_needs_the_store any_title tagged_hash alice 0 10
                      None (with_outages [true] world_two_notes) [] H0 H10)
                   eq_refl).
    reflexivity.
  - apply (proj2 (listing_needs_the_store any_title tagged_hash alice 0 10
                    None (with_outages [false; true] world_two_notes) []
                    H0 H10)); reflexivity.
Defined.

(** *** Single notes *)

Lemma create_note_round_trip_witness :
  ∃ n,
    run0 (create_note first_note bob) world_note
      = (Done n, with_notes [alice_note; n] world_note) ∧
    note_id n = 2 ∧ owner_id n = 2 ∧
    run0 (get_note (note_id n) alice) (with_notes [alice_note; n] world_note)
      = (Raised (forbidden "Not authorized to access this note"),
         with_notes [alice_note; n] world_note).
Proof.
  destruct (create_note_round_trip any_title tagged_hash first_note bob
              world_note) as (n & Hrun & _ & _ & Hown & _ & _ & Hother & _).
  exists n. split; [exact Hrun|].
  assert (n = {| note_id := 2; title := "t"; content := "c";
                 owner_id := 2 |}) as -> by (by injection Hrun as <-).
  split; [reflexivity|]. split; [reflexivity|].
  apply (Hother alice). discriminate.
Defined.

Lemma update_note_round_trip_witness :
  ∃ w',
    run0 (update_note 1 {| nu_title := Some "t2"; nu_content := None |} alice)
         world_two_notes
      = (Done {| note_id := 1; title := "t2"; content := "c";
                 owner_id := 1 |}, w') ∧
    lookup_note 2 w' = Some bob_note.
Proof.
  destruct (update_note_round_trip any_title tagged_hash 1
              {| nu_title := Some "t2"; nu_content := None |} alice
              world_two_notes alice_note eq_refl
              ltac:(change (NoDup [1; 2]); apply NoDup_cons;
                    split; [|apply NoDup_singleton];
                    intros H%list_elem_of_singleton; discriminate)
              eq_refl eq_refl)
    as (w' & Hrun & _ & _ & Hothers & _).
  exists w'. split; [exact Hrun|].
  rewrite (Hothers 2 ltac:(discriminate)). reflexivity.
Defined.

Lemma delete_note_round_trip_witness :
  ∃ w',
    run0 (delete_note 1 alice) world_two_notes = (Done tt, w') ∧
    run0 (get_note 1 alice) w' = (Raised not_found, w') ∧
    lookup_note 2 w' = Some bob_note.
Proof.
  destruct (delete_note_round_trip any_title tagged_hash 1 alice
              world_two_notes alice_note eq_refl eq_refl eq_refl)
    as (w' & Hrun & _ & Hget & _ & Hothers).
  exists w'. split; [exact Hrun|]. split; [exact Hget|].
  rewrite (Hothers 2 ltac:(discriminate)). reflexivity.
Defined.

(** Redis is down when Alice deletes her note: she is told of an error,
    and the note is gone. *)
Lemma mutation_committed_before_invalidation_witness :
  (run0 (delete_note 1 alice) (with_outages [true] world_two_notes)).1
    = Raised RedisError ∧
  lookup_note 1
    (run0 (delete_note 1 alice) (with_outages [true] world_two_notes)).2
    = None.
Proof.
  destruct (proj1 (mutation_committed_before_invalidation any_title
                     tagged_hash 1 {| nu_title := None; nu_content := None |}
                     alice (with_outages [true] world_two_notes) alice_note
                     [] eq_refl eq_refl) eq_refl)
    as (Hdel & Hgone & _).
  split; [exact Hdel|exact Hgone].
Defined.

(** *** Tokens and logging in *)

Lemma get_current_user_sound_witness :
  ∃ claims,
    alice_token
      = jwt.Jws ALGORITHM claims (jwt.Hmac SECRET_KEY ALGORITHM claims) ∧
    claims !! "sub" = Some (PStr "alice").
Proof.
  destruct (get_current_user_sound any_title tagged_hash SECRET_KEY
              alice_token world_login world_login alice eq_refl)
    as (_ & claims & name & Ht & Hsub & _ & Hname & _).
  exists claims. split; [exact Ht|]. rewrite Hsub. by rewrite <- Hname.
Defined.

(** A caller who puts a far expiry into the dictionary gets thirty minutes
    all the same; a caller who puts a [datetime] under a key of its own
    gets [TypeError]. *)
Lemma create_access_token_claims_witness :
  (∃ claims,
     run0 (create_access_token SECRET_KEY
             (<["exp" := PInt 9999999999]> {["sub" := PStr "alice"]}) None)
          world_login
       = (Done (jwt.Jws ALGORITHM claims
                  (jwt.Hmac SECRET_KEY ALGORITHM claims)), world_login) ∧
     claims !! "exp" = Some (PInt 1800) ∧
     claims !! "sub" = Some (PStr "alice")) ∧
  run0 (create_access_token SECRET_KEY {["since" := PDatetime 0]} None)
       world_login
    = (Raised TypeError, world_login).
Proof.
  assert (datetime_range (clock world_login + lifetime None)) as Hrange
    by (vm_compute; split; discriminate).
  split.
  - destruct (proj1 (create_access_token_claims any_title tagged_hash
                       SECRET_KEY
                       (<["exp" := PInt 9999999999]> {["sub" := PStr "alice"]})
                       None world_login Hrange))
      as (claims & Hrun & _ & Hdefault & Hrest & _).
    { intros k v Hv Hk. rewrite lookup_insert_ne in Hv by done.
      apply lookup_singleton_Some in Hv as [<- <-]. split; [reflexivity|].
      exact I. }
    exists claims. split; [exact Hrun|]. split.
    + rewrite (Hdefault (or_introl eq_refl)). reflexivity.
    + rewrite (Hrest "sub") by discriminate. reflexivity.
  - apply (proj2 (create_access_token_claims any_title tagged_hash
                    SECRET_KEY {["since" := PDatetime 0]} None world_login
                    Hrange) "since" (PDatetime 0));
      [reflexivity|discriminate|reflexivity].
Defined.

Lemma login_failure_uniform_witness :
  run0 (login tagged_verify
          {| ul_username := "nobody"; ul_password := "secret-a" |}) world0
    = (Raised login_exception, world0) ∧
  run0 (login tagged_verify
          {| ul_username := "alice"; ul_password := "wrong" |}) world0
    = (Raised login_exception, world0) ∧
  run0 (login tagged_verify
          {| ul_username := "carol"; ul_password := "secret-c" |})
       world_legacy
    = (Raised ValueError, world_legacy) ∧
  tagged_verify "secret-c" (password carol) = inl ValueError.
Proof.
  split; [|split; [|split; [reflexivity|]]].
  - apply (proj1 (login_failure_uniform any_title tagged_hash tagged_verify
                    {| ul_username := "nobody"; ul_password := "secret-a" |}
                    world0)). left. reflexivity.
  - apply (proj1 (login_failure_uniform any_title tagged_hash tagged_verify
                    {| ul_username := "alice"; ul_password := "wrong" |}
                    world0)). right. exists alice. split; reflexivity.
  - destruct (proj2 (login_failure_uniform any_title tagged_hash
                       tagged_verify
                       {| ul_username := "carol"; ul_password := "secret-c" |}
                       world_legacy) ValueError world_legacy eq_refl)
      as (_ & [[Habs _]|(u & Hu & Hv)]); [discriminate Habs|].
    injection Hu as <-. exact Hv.
Defined.

Lemma login_token_authenticates_witness :
  ∃ tok,
    run0 (login tagged_verify
            {| ul_username := "alice"; ul_password := "secret-a" |}) world0
      = (Done {| access_token := tok; token_type := "bearer" |}, world0) ∧
    run0 (get_current_user SECRET_KEY tok) world0 = (Done alice, world0).
Proof.
  destruct (login_token_authenticates any_title tagged_hash tagged_verify
              {| ul_username := "alice"; ul_password := "secret-a" |} world0
              alice eq_refl eq_refl) as (tok & Hlogin & Hauth & _).
  exists tok. split; [exact Hlogin|exact Hauth].
Defined.

Lemma register_then_login_witness :
  ∃ u w1 tok,
    run0 (register {| uc_username := "carol"; uc_password := "pw" |}) world0
      = (Done u, w1) ∧
    run0 (login tagged_verify
            {| ul_username := "carol"; ul_password := "pw" |}) w1
      = (Done {| access_token := tok; token_type := "bearer" |}, w1) ∧
    run0 (get_current_user SECRET_KEY tok) w1 = (Done u, w1).
Proof.
  destruct (register_then_login any_title tagged_hash tagged_verify
              {| uc_username := "carol"; uc_password := "pw" |} world0
              eq_refl eq_refl)
    as (u & w1 & tok & Hreg & _ & Hlogin & Hauth & _).
  exists u, w1, tok. split; [exact Hreg|]. split; [exact Hlogin|exact Hauth].
Defined.

Lemma register_keeps_usernames_unique_witness :
  NoDup (username <$>
           users (run0 (register {| uc_username := "carol";
                                    uc_password := "pw" |}) world0).2).
Proof.
  apply (register_keeps_usernames_unique any_title tagged_hash
           {| uc_username := "carol"; uc_password := "pw" |} world0).
  - change (NoDup ["alice"; "bob"]). apply NoDup_cons.
    split; [|apply NoDup_singleton].
    intros H%list_elem_of_singleton. discriminate.
  - change (NoDup [1; 2]). apply NoDup_cons.
    split; [|apply NoDup_singleton].
    intros H%list_elem_of_singleton. discriminate.
Defined.
